(** * g-pref: the privacy / preference-regret curve

    A shallow embedding of [proof_for_dpo_to_kpi_privacy.py]: the function
    [simulate_preference_regret], the module-level script that calls it with
    its defaults, and the pyplot calls that label the chart.

    Numbers.  The program computes with binary64 floats.  A finite float
    is modelled by the real number it denotes.  The model follows the
    binary64 range: a real result at or beyond the overflow threshold
    becomes an infinity, one at or below half the least subnormal becomes
    zero, and a division by zero yields an infinity or NaN as IEEE 754
    prescribes.  A result inside the range is kept as the exact real:
    rounding to 53 bits is not modelled, so the theorems about values are
    stated with a tolerance, or as inequalities that rounding preserves.
    The model has one zero, [Finite 0], standing for [+0.0].

    Two run-time types carry such a number: Python's [float] and NumPy's
    [float64].  They differ in what a zero divisor does: [float / float]
    raises [ZeroDivisionError], while an operation with a [float64] operand
    follows IEEE 754 (infinity or NaN, with a warning that is not an
    exception). *)

From Stdlib Require Import ZArith.
From Stdlib Require Import Reals.Reals Reals.RIneq.
From Stdlib Require Import Lra Lia.
From Stdlib Require Import String.
From Stdlib Require Import List Bool.
Import ListNotations.

Open Scope string_scope.
Open Scope list_scope.
Open Scope R_scope.

(** ** Scalars *)

Module Scalar.

Inductive pytype : Type :=
| PyFloat      (* builtins.float *)
| NpFloat64.   (* numpy.float64  *)

Inductive f64 : Type :=
| Finite (x : R)
| Infinity (negative : bool)
| NaN.

Record value : Type := Value { ty : pytype; num : f64 }.

Definition py (x : R) : value := Value PyFloat (Finite x).
Definition np (x : R) : value := Value NpFloat64 (Finite x).

Inductive exn : Type :=
| ZeroDivisionError.

(** Outcome of evaluating an expression: a value or a raised exception. *)
Inductive result (A : Type) : Type :=
| Ok (a : A)
| Err (e : exn).
Arguments Ok {A} a.
Arguments Err {A} e.

Definition is_negative (x : R) : bool :=
  if Rlt_dec x 0 then true else false.

Definition is_zero (a : f64) : bool :=
  match a with
  | Finite x => if Req_dec_T x 0 then true else false
  | _ => false
  end.

(** The binary64 range.  Rounding to nearest gives an infinity from
    [2^1024 - 2^970] on, the midpoint above the largest finite float, and
    zero up to [2^-1075], half the least subnormal. *)
Definition overflow_threshold : R := powerRZ 2 1024 - powerRZ 2 970.
Definition underflow_threshold : R := powerRZ 2 (-1075).

Definition to_range (r : R) : f64 :=
  if Rle_dec overflow_threshold (Rabs r) then Infinity (is_negative r)
  else if Rle_dec (Rabs r) underflow_threshold then Finite 0
  else Finite r.

(** IEEE 754 negation, product and quotient. *)
Definition f64_neg (a : f64) : f64 :=
  match a with
  | Finite x => Finite (- x)
  | Infinity s => Infinity (negb s)
  | NaN => NaN
  end.

Definition f64_mul (a b : f64) : f64 :=
  match a, b with
  | NaN, _ | _, NaN => NaN
  | Finite x, Finite y => to_range (x * y)
  | Finite x, Infinity s =>
      if Req_dec_T x 0 then NaN else Infinity (xorb (is_negative x) s)
  | Infinity s, Finite y =>
      if Req_dec_T y 0 then NaN else Infinity (xorb s (is_negative y))
  | Infinity s, Infinity t => Infinity (xorb s t)
  end.

Definition f64_div (a b : f64) : f64 :=
  match a, b with
  | NaN, _ | _, NaN => NaN
  | Finite x, Finite y =>
      if Req_dec_T y 0
      then (if Req_dec_T x 0 then NaN else Infinity (is_negative x))
      else to_range (x / y)
  | Finite _, Infinity _ => Finite 0
  | Infinity s, Finite y => Infinity (xorb s (is_negative y))
  | Infinity _, Infinity _ => NaN
  end.

(** [exp] on floats: [exp(-inf) = 0], [exp(+inf) = +inf], and a finite
    argument whose exponential leaves the range underflows to zero or
    overflows to infinity. *)
Definition f64_exp (a : f64) : f64 :=
  match a with
  | Finite x => to_range (exp x)
  | Infinity false => Infinity false
  | Infinity true => Finite 0
  | NaN => NaN
  end.

(** [a < b] on floats: false as soon as an operand is NaN. *)
Definition f64_lt (a b : f64) : Prop :=
  match a, b with
  | Finite x, Finite y => x < y
  | Finite _, Infinity s => s = false
  | Infinity s, Finite _ => s = true
  | Infinity s, Infinity t => s = true /\ t = false
  | NaN, _ | _, NaN => False
  end.

(** The type of the result of a binary operation: NumPy's as soon as one
    operand is a [float64]. *)
Definition join (s t : pytype) : pytype :=
  match s, t with
  | PyFloat, PyFloat => PyFloat
  | _, _ => NpFloat64
  end.

(** [a / b] *)
Definition truediv (a b : value) : result value :=
  match join (ty a) (ty b) with
  | PyFloat =>
      if is_zero (num b) then Err ZeroDivisionError
      else Ok (Value PyFloat (f64_div (num a) (num b)))
  | NpFloat64 => Ok (Value NpFloat64 (f64_div (num a) (num b)))
  end.

(** [n * b] for an [int] literal [n] *)
Definition int_mul (n : Z) (b : value) : value :=
  Value (ty b) (f64_mul (Finite (IZR n)) (num b)).

(** [-a] *)
Definition neg (a : value) : value :=
  Value (ty a) (f64_neg (num a)).

(** [np.exp(a)]: a [float64] whatever the type of the argument *)
Definition np_exp (a : value) : value :=
  Value NpFloat64 (f64_exp (num a)).

End Scalar.
Import Scalar.

(** ** The object store, the pyplot figure and the monad of statements *)

Module Store.

Definition loc : Type := nat.
Bind Scope nat_scope with loc.

(** The state of [matplotlib.pyplot]: the lines of the current axes (the
    data each was drawn from), its texts, and whether it has been shown. *)
Record figure : Type := Figure {
  lines : list (list value * list value);
  xlabel : string;
  ylabel : string;
  title : string;
  grid : bool;
  shown : bool
}.

Definition empty_figure : figure :=
  Figure [] EmptyString EmptyString EmptyString false false.

(** Sequence objects (a [list], an [ndarray]) live in the heap and are
    passed by reference; an allocation takes the next free address. *)
Record world : Type := World {
  heap : list (list value);
  fig : figure
}.

Definition set_heap (h : list (list value)) (w : world) : world :=
  World h (fig w).

Definition set_fig (f : figure) (w : world) : world :=
  World (heap w) f.

(** What stops the model, as opposed to the program: a reference to no
    object, or a loop that outruns its bound. *)
Inductive fault : Type :=
| DanglingReference
| FuelExhausted.

Inductive outcome (A : Type) : Type :=
| Returns (a : A) (w : world)
| Raises (e : exn) (w : world)
| Abort (f : fault).
Arguments Returns {A} a w.
Arguments Raises {A} e w.
Arguments Abort {A} f.

Definition M (A : Type) : Type := world -> outcome A.

Definition ret {A} (a : A) : M A := fun w => Returns a w.

Definition bind {A B} (m : M A) (k : A -> M B) : M B :=
  fun w =>
    match m w with
    | Returns a w' => k a w'
    | Raises e w' => Raises e w'
    | Abort f => Abort f
    end.

Definition abort {A} (f : fault) : M A := fun _ => Abort f.

(** An expression evaluated inside a statement. *)
Definition eval {A} (r : result A) : M A :=
  fun w =>
    match r with
    | Ok a => Returns a w
    | Err e => Raises e w
    end.

Fixpoint update {A} (i : nat) (x : A) (l : list A) : list A :=
  match l, i with
  | [], _ => []
  | _ :: t, O => x :: t
  | y :: t, S j => y :: update j x t
  end.

Definition deref (l : loc) : M (list value) :=
  fun w =>
    match nth_error (heap w) l with
    | Some xs => Returns xs w
    | None => Abort DanglingReference
    end.

(** A new sequence object holding [xs]. *)
Definition alloc (xs : list value) : M loc :=
  fun w => Returns (length (heap w)) (set_heap (heap w ++ [xs]) w).

(** [l.append(v)] *)
Definition append (l : loc) (v : value) : M unit :=
  fun w =>
    match nth_error (heap w) l with
    | Some xs => Returns tt (set_heap (update l (xs ++ [v]) (heap w)) w)
    | None => Abort DanglingReference
    end.

End Store.
Import Store.

Declare Scope stmt_scope.
Delimit Scope stmt_scope with stmt.
Notation "x <- m ;; k" := (bind m (fun x => k))
  (at level 61, m at next level, right associativity) : stmt_scope.
Notation "m ;; k" := (bind m (fun _ => k))
  (at level 61, right associativity) : stmt_scope.
Open Scope stmt_scope.

(** ** The iteration protocol *)

(** [for v in s: body(v)].  The iterator keeps an index into the live
    object [s] and stops at the first index past its end.  The model bounds
    the number of rounds by the length [s] has when the loop starts and
    aborts with [FuelExhausted] should the body have made [s] longer. *)
Fixpoint iterate (fuel i : nat) (s : loc) (body : value -> M unit) : M unit :=
  xs <- deref s ;;
  match nth_error xs i with
  | None => ret tt
  | Some v =>
      match fuel with
      | O => abort FuelExhausted
      | S fuel' => body v ;; iterate fuel' (S i) s body
      end
  end.

Definition for_each (s : loc) (body : value -> M unit) : M unit :=
  xs <- deref s ;;
  iterate (length xs) 0 s body.

(** ** The program *)

(** [def simulate_preference_regret(delta, epsilons)] *)
Definition simulate_preference_regret (delta : value) (epsilons : loc)
  : M (loc * loc) :=
  regret <- alloc [] ;;
  for_each epsilons (fun eps =>
    b <- eval (truediv delta eps) ;;
    q <- eval (truediv (neg delta) (int_mul 2 b)) ;;
    let prob := np_exp q in
    append regret prob) ;;
  ret (epsilons, regret).

(** [np.linspace(start, stop, num)], with NumPy's default [endpoint=True]:
    [num] evenly spaced samples, the last one set to [stop]. *)
Definition linspace (start stop : R) (num : nat) : list value :=
  let div := (num - 1)%nat in
  let delta := stop - start in
  let y :=
    map (fun i => (if (0 <? div)%nat then INR i * (delta / INR div)
                   else INR i * delta) + start)
        (seq 0 num) in
  map np (if (1 <? num)%nat then removelast y ++ [stop] else y).

Definition default_delta : value := py 1.
Definition default_epsilons : list value := linspace (1 / 10) 3 20.

(** The pyplot calls of the script. *)
Definition plt_plot (x y : loc) : M unit :=
  xs <- deref x ;;
  ys <- deref y ;;
  fun w =>
    let f := fig w in
    Returns tt
      (set_fig (Figure (lines f ++ [(xs, ys)]) (xlabel f) (ylabel f)
                       (title f) (grid f) (shown f)) w).

Definition plt_xlabel (s : string) : M unit :=
  fun w =>
    let f := fig w in
    Returns tt
      (set_fig (Figure (lines f) s (ylabel f) (title f) (grid f) (shown f)) w).

Definition plt_ylabel (s : string) : M unit :=
  fun w =>
    let f := fig w in
    Returns tt
      (set_fig (Figure (lines f) (xlabel f) s (title f) (grid f) (shown f)) w).

Definition plt_title (s : string) : M unit :=
  fun w =>
    let f := fig w in
    Returns tt
      (set_fig (Figure (lines f) (xlabel f) (ylabel f) s (grid f) (shown f)) w).

Definition plt_grid (b : bool) : M unit :=
  fun w =>
    let f := fig w in
    Returns tt
      (set_fig (Figure (lines f) (xlabel f) (ylabel f) (title f) b (shown f)) w).

Definition plt_show : M unit :=
  fun w =>
    let f := fig w in
    Returns tt
      (set_fig (Figure (lines f) (xlabel f) (ylabel f) (title f) (grid f) true) w).

(** The module, top to bottom.  The default value of [epsilons] is built
    once, when the [def] statement runs; the call then passes that object. *)
Definition script : M unit :=
  epsilons0 <- alloc default_epsilons ;;
  r <- simulate_preference_regret default_delta epsilons0 ;;
  let '(eps, regret) := r in
  plt_plot eps regret ;;
  plt_xlabel "Privacy budget (Îµ)" ;;
  plt_ylabel "Preference Regret" ;;
  plt_title "Tradeoff: Privacy vs Preference Accuracy" ;;
  plt_grid true ;;
  plt_show.

Definition initial_world : world := World [] empty_figure.

(** ** The loop, element by element *)

(** What one round of the loop appends for the sample [eps]. *)
Definition regret_of (delta eps : value) : result value :=
  match truediv delta eps with
  | Err e => Err e
  | Ok b =>
      match truediv (neg delta) (int_mul 2 b) with
      | Err e => Err e
      | Ok q => Ok (np_exp q)
      end
  end.

(** The rounds over the remaining samples: the list built so far, and the
    exception that stopped the loop, if one did. *)
Fixpoint sweep (delta : value) (eps : list value) (acc : list value)
  : list value * option exn :=
  match eps with
  | [] => (acc, None)
  | e :: rest =>
      match regret_of delta e with
      | Ok p => sweep delta rest (acc ++ [p])
      | Err x => (acc, Some x)
      end
  end.

(** The body of the loop, as a statement on the list at [regret]. *)
Definition loop_body (delta : value) (regret : loc) (eps : value) : M unit :=
  b <- eval (truediv delta eps) ;;
  q <- eval (truediv (neg delta) (int_mul 2 b)) ;;
  let prob := np_exp q in
  append regret prob.

(** How the loop leaves the world: the list at [r] replaced by what the
    rounds built, and the loop over or stopped by an exception. *)
Definition finish (r : loc) (w : world) (s : list value * option exn)
  : outcome unit :=
  match snd s with
  | None => Returns tt (set_heap (update r (fst s) (heap w)) w)
  | Some e => Raises e (set_heap (update r (fst s) (heap w)) w)
  end.

(** A sample that is a strictly positive real. *)
Definition positive (e : value) : Prop :=
  exists x, num e = Finite x /\ 0 < x.

(** The call returns, and the list it returns as the regret sequence holds
    [ps]; the first component is the reference it was given. *)
Definition returns_regret (delta : value) (epsilons : loc) (w : world)
    (ps : list value) : Prop :=
  exists regret w',
    simulate_preference_regret delta epsilons w
      = Returns (epsilons, regret) w' /\
    nth_error (heap w') regret = Some ps.

(** The call raises [e]. *)
Definition raises (delta : value) (epsilons : loc) (w : world) (e : exn)
  : Prop :=
  exists w', simulate_preference_regret delta epsilons w = Raises e w'.

(** The closed form of the curve on real samples. *)
Definition closed_form (e : value) : value :=
  match num e with
  | Finite x => np (exp (- x / 2))
  | _ => Value NpFloat64 NaN
  end.

(** The call in [w] left [ps], complete or as far as the exception [e] let
    it come, as the one new object of the store, and changed nothing else. *)
Definition after_call (delta : value) (epsilons : loc) (w : world)
    (ps : list value) (e : option exn) : Prop :=
  let w' := set_heap (heap w ++ [ps]) w in
  match e with
  | None =>
      simulate_preference_regret delta epsilons w
        = Returns (epsilons, length (heap w)) w'
  | Some x => simulate_preference_regret delta epsilons w = Raises x w'
  end.

(** [simulate_preference_regret()]: the call with both defaults. *)
Definition default_call : M (loc * loc) :=
  epsilons0 <- alloc default_epsilons ;;
  simulate_preference_regret default_delta epsilons0.

(** The number one round computes from [delta] and a sample, exceptions
    aside: [exp(-delta / (2 * (delta / eps)))]. *)
Definition round_value (a e : f64) : f64 :=
  f64_exp (f64_div (f64_neg a) (f64_mul (Finite 2) (f64_div a e))).

(** The quotient [d / x] lies in the normal range of binary64, with room
    for the doubling that follows: [b = delta / eps] and [2 * b] neither
    overflow nor lose bits to underflow. *)
Definition normal_quotient (d x : R) : Prop :=
  powerRZ 2 (-1022) <= Rabs (d / x) <= powerRZ 2 1022.

(** The quotient [d / x] is at least the least subnormal in size: it does
    not round to zero. *)
Definition nonzero_quotient (d x : R) : Prop :=
  powerRZ 2 (-1074) <= Rabs (d / x).

(** What a round in the normal range appends for a real sample: [exp] of
    [-x / 2], each step taken in the binary64 range. *)
Definition curve (e : value) : value :=
  match num e with
  | Finite x => Value NpFloat64 (f64_exp (to_range (- x / 2)))
  | _ => Value NpFloat64 NaN
  end.

(** A real [delta] and a strictly positive real sample whose quotient is
    in the normal range. *)
Definition well_conditioned (delta e : value) : Prop :=
  exists d x,
    num delta = Finite d /\ num e = Finite x /\ 0 < x /\
    normal_quotient d x.

(** No division of the round on [e] can raise: a [float64] takes part in
    it, or [delta] and [e] are reals whose quotient does not round to
    zero. *)
Definition no_zero_division (delta e : value) : Prop :=
  join (ty delta) (ty e) = NpFloat64 \/
  exists d x,
    num delta = Finite d /\ num e = Finite x /\ nonzero_quotient d x.

(** A caller that keeps the returned sample sequence, appends a sample to
    it and calls again with the argument it passed the first time:
    [e1, r1 = f(delta, xs); e1.append(v); e2, r2 = f(delta, xs)]. *)
Definition call_append_call (delta : value) (epsilons : loc) (v : value)
  : M ((loc * loc) * (loc * loc)) :=
  r1 <- simulate_preference_regret delta epsilons ;;
  append (fst r1) v ;;
  r2 <- simulate_preference_regret delta epsilons ;;
  ret (r1, r2).

(** ** Reasoning about the store *)

Section StoreFacts.

Context {A : Type}.

Lemma update_length (i : nat) (x : A) (l : list A) :
  length (update i x l) = length l.
Proof.
  revert i; induction l as [|y t IH]; intros [|j]; simpl; auto.
Qed.

Lemma update_hit (i : nat) (x : A) (l : list A) :
  (i < length l)%nat -> nth_error (update i x l) i = Some x.
Proof.
  revert i; induction l as [|y t IH]; intros [|j]; simpl; intros H;
    try lia; auto.
  apply IH; lia.
Qed.

Lemma update_miss (i j : nat) (x : A) (l : list A) :
  i <> j -> nth_error (update i x l) j = nth_error l j.
Proof.
  revert i j; induction l as [|y t IH]; intros [|i] [|j] H; simpl; auto.
  congruence.
Qed.

Lemma update_same (i : nat) (x : A) (l : list A) :
  nth_error l i = Some x -> update i x l = l.
Proof.
  revert i; induction l as [|y t IH]; intros [|j]; simpl; intros H; auto.
  - congruence.
  - now rewrite IH.
Qed.

Lemma update_twice (i : nat) (x y : A) (l : list A) :
  update i x (update i y l) = update i x l.
Proof.
  revert i; induction l as [|z t IH]; intros [|j]; simpl; auto.
  now rewrite IH.
Qed.

Lemma update_fresh (x y : A) (l : list A) :
  update (length l) x (l ++ [y]) = l ++ [x].
Proof.
  induction l as [|z t IH]; simpl; auto.
  now rewrite IH.
Qed.

Lemma nth_error_fresh (x : A) (l : list A) :
  nth_error (l ++ [x]) (length l) = Some x.
Proof.
  rewrite nth_error_app2 by lia.
  now rewrite Nat.sub_diag.
Qed.

Lemma nth_error_old (x : A) (l : list A) (i : nat) :
  (i < length l)%nat -> nth_error (l ++ [x]) i = nth_error l i.
Proof.
  intros H; now rewrite nth_error_app1.
Qed.

Lemma skipn_none (l : list A) (i : nat) :
  nth_error l i = None -> skipn i l = [].
Proof.
  intros H; apply skipn_all2; now apply nth_error_None.
Qed.

Lemma skipn_some (l : list A) (i : nat) (x : A) :
  nth_error l i = Some x -> skipn i l = x :: skipn (S i) l.
Proof.
  revert i; induction l as [|y t IH]; intros [|j]; simpl; intros H;
    try congruence.
  now apply IH.
Qed.

End StoreFacts.

Lemma set_heap_id (w : world) : set_heap (heap w) w = w.
Proof. now destruct w. Qed.

Lemma loop_body_spec delta r eps w acc :
  nth_error (heap w) r = Some acc ->
  loop_body delta r eps w =
    match regret_of delta eps with
    | Ok p => Returns tt (set_heap (update r (acc ++ [p]) (heap w)) w)
    | Err e => Raises e w
    end.
Proof.
  intros Hr. unfold loop_body, regret_of, bind, eval.
  destruct (truediv delta eps) as [b|e]; auto.
  destruct (truediv (neg delta) (int_mul 2 b)) as [q|e]; auto.
  unfold append. now rewrite Hr.
Qed.

Lemma iterate_spec delta s r fuel :
  s <> r ->
  forall i w xs acc,
    nth_error (heap w) s = Some xs ->
    nth_error (heap w) r = Some acc ->
    (length xs <= fuel + i)%nat ->
    iterate fuel i s (loop_body delta r) w =
      finish r w (sweep delta (skipn i xs) acc).
Proof.
  intros Hsr. induction fuel as [|fuel IH]; intros i w xs acc Hs Hr Hlen.
  - simpl. unfold bind, deref. rewrite Hs.
    destruct (nth_error xs i) as [v|] eqn:Hi.
    + assert (i < length xs)%nat by (apply nth_error_Some; congruence).
      lia.
    + rewrite (skipn_none _ _ Hi). unfold finish, ret; simpl.
      now rewrite (update_same _ _ _ Hr), set_heap_id.
  - simpl. unfold bind at 1, deref. rewrite Hs.
    destruct (nth_error xs i) as [v|] eqn:Hi.
    + rewrite (skipn_some _ _ _ Hi). simpl.
      unfold bind. rewrite (loop_body_spec _ _ _ _ _ Hr).
      destruct (regret_of delta v) as [p|e].
      * assert (Hr' : (r < length (heap w))%nat)
          by (apply nth_error_Some; congruence).
        rewrite (IH (S i) _ xs (acc ++ [p])).
        -- unfold finish; simpl.
           now rewrite update_twice.
        -- simpl. now rewrite update_miss by congruence.
        -- simpl. now apply update_hit.
        -- lia.
      * unfold finish; simpl.
        now rewrite (update_same _ _ _ Hr), set_heap_id.
    + rewrite (skipn_none _ _ Hi). unfold finish, ret; simpl.
      now rewrite (update_same _ _ _ Hr), set_heap_id.
Qed.

(** The call as a whole: it allocates one list, the regret list, fills it
    in the order of the samples and returns it next to the reference it was
    given; an exception leaves the list as far as it was built. *)
Lemma simulate_spec delta epsilons w eps :
  nth_error (heap w) epsilons = Some eps ->
  simulate_preference_regret delta epsilons w =
    match sweep delta eps [] with
    | (ps, None) =>
        Returns (epsilons, length (heap w)) (set_heap (heap w ++ [ps]) w)
    | (ps, Some e) => Raises e (set_heap (heap w ++ [ps]) w)
    end.
Proof.
  intros Hs.
  assert (Hlt : (epsilons < length (heap w))%nat)
    by (apply nth_error_Some; congruence).
  unfold simulate_preference_regret, bind at 1, alloc.
  unfold bind at 1, for_each, bind at 1, deref; simpl.
  rewrite nth_error_old, Hs by exact Hlt.
  change (fun eps0 => _) with (loop_body delta (length (heap w))).
  rewrite (iterate_spec delta epsilons (length (heap w)) (length eps))
    with (xs := eps) (acc := []); simpl.
  - destruct (sweep delta eps []) as [ps [e|]]; unfold finish, ret; simpl;
      now rewrite update_fresh.
  - lia.
  - now rewrite nth_error_old.
  - apply nth_error_fresh.
  - lia.
Qed.

(** ** The binary64 range *)

Lemma pow2_pos (z : Z) : 0 < powerRZ 2 z.
Proof. apply powerRZ_lt. lra. Qed.

Lemma pow2_ge_1 (z : Z) : (0 <= z)%Z -> 1 <= powerRZ 2 z.
Proof.
  intros Hz. rewrite <- (Z2Nat.id z Hz), <- pow_powerRZ.
  apply pow_R1_Rle. lra.
Qed.

Lemma pow2_le (n m : Z) : (n <= m)%Z -> powerRZ 2 n <= powerRZ 2 m.
Proof.
  intros H. replace m with (n + (m - n))%Z by lia.
  rewrite powerRZ_add by lra.
  pose proof (pow2_pos n). pose proof (pow2_ge_1 (m - n) ltac:(lia)). nra.
Qed.

Lemma pow2_succ (z : Z) : powerRZ 2 (z + 1) = 2 * powerRZ 2 z.
Proof. rewrite powerRZ_add by lra. simpl. lra. Qed.

Lemma pow2_30 : powerRZ 2 30 = 1073741824.
Proof. simpl. lra. Qed.

Lemma pow2_m30 : powerRZ 2 (-30) = / 1073741824.
Proof. simpl. f_equal. lra. Qed.

Lemma underflow_threshold_pos : 0 < underflow_threshold.
Proof. apply pow2_pos. Qed.

Lemma underflow_threshold_small : underflow_threshold <= / 1073741824.
Proof. rewrite <- pow2_m30. apply pow2_le. lia. Qed.

Lemma underflow_below_subnormal :
  2 * underflow_threshold = powerRZ 2 (-1074).
Proof.
  unfold underflow_threshold. rewrite <- pow2_succ. reflexivity.
Qed.

Lemma overflow_threshold_large : powerRZ 2 1023 < overflow_threshold.
Proof.
  unfold overflow_threshold.
  change 1024%Z with (1023 + 1)%Z. rewrite pow2_succ.
  pose proof (pow2_le 970 1022 ltac:(lia)).
  change 1023%Z with (1022 + 1)%Z. rewrite pow2_succ.
  pose proof (pow2_pos 1022). lra.
Qed.

Lemma overflow_threshold_big : 1073741824 < overflow_threshold.
Proof.
  pose proof overflow_threshold_large.
  pose proof (pow2_le 30 1023 ltac:(lia)). rewrite pow2_30 in *. lra.
Qed.

Lemma overflow_threshold_below : overflow_threshold <= powerRZ 2 1024.
Proof.
  unfold overflow_threshold. pose proof (pow2_pos 970). lra.
Qed.

Lemma is_negative_pos (r : R) : 0 <= r -> is_negative r = false.
Proof. intros H. unfold is_negative. destruct (Rlt_dec r 0); [lra|auto]. Qed.

Lemma is_negative_neg (r : R) : r < 0 -> is_negative r = true.
Proof. intros H. unfold is_negative. destruct (Rlt_dec r 0); [auto|lra]. Qed.

Lemma to_range_in (r : R) :
  underflow_threshold < Rabs r -> Rabs r < overflow_threshold ->
  to_range r = Finite r.
Proof.
  intros Hlo Hhi. unfold to_range.
  destruct (Rle_dec overflow_threshold (Rabs r)); [lra|].
  destruct (Rle_dec (Rabs r) underflow_threshold); [lra|reflexivity].
Qed.

Lemma to_range_tiny (r : R) :
  Rabs r <= underflow_threshold -> to_range r = Finite 0.
Proof.
  intros H. unfold to_range.
  pose proof underflow_threshold_small. pose proof overflow_threshold_big.
  destruct (Rle_dec overflow_threshold (Rabs r)); [lra|].
  destruct (Rle_dec (Rabs r) underflow_threshold); [reflexivity|lra].
Qed.

Lemma to_range_huge (r : R) :
  overflow_threshold <= Rabs r -> to_range r = Infinity (is_negative r).
Proof.
  intros H. unfold to_range.
  destruct (Rle_dec overflow_threshold (Rabs r)); [reflexivity|lra].
Qed.

Lemma to_range_zero : to_range 0 = Finite 0.
Proof.
  apply to_range_tiny. rewrite Rabs_R0.
  left. apply underflow_threshold_pos.
Qed.

Lemma to_range_one : to_range 1 = Finite 1.
Proof.
  pose proof underflow_threshold_small. pose proof overflow_threshold_big.
  apply to_range_in; rewrite Rabs_R1; lra.
Qed.

(** The three ways a real result lands in the range. *)
Lemma to_range_cases (r : R) :
  (Rabs r <= underflow_threshold /\ to_range r = Finite 0) \/
  (underflow_threshold < Rabs r < overflow_threshold /\
   to_range r = Finite r) \/
  (overflow_threshold <= Rabs r /\ to_range r = Infinity (is_negative r)).
Proof.
  destruct (Rle_dec (Rabs r) underflow_threshold) as [Hlo|Hlo].
  - left. split; [exact Hlo|]. now apply to_range_tiny.
  - destruct (Rle_dec overflow_threshold (Rabs r)) as [Hhi|Hhi].
    + right; right. split; [exact Hhi|]. now apply to_range_huge.
    + right; left. split; [lra|]. apply to_range_in; lra.
Qed.

(** ** The arithmetic of one round *)

Lemma is_zero_finite (x : R) : x <> 0 -> is_zero (Finite x) = false.
Proof. intros H; simpl. now destruct (Req_dec_T x 0). Qed.

Lemma is_zero_zero (x : R) : x = 0 -> is_zero (Finite x) = true.
Proof. intros H; simpl. now destruct (Req_dec_T x 0). Qed.

Lemma f64_div_finite (x y : R) :
  y <> 0 -> f64_div (Finite x) (Finite y) = to_range (x / y).
Proof. intros H; simpl. now destruct (Req_dec_T y 0). Qed.

Lemma f64_div_by_zero (x y : R) :
  y = 0 -> x <> 0 ->
  f64_div (Finite x) (Finite y) = Infinity (is_negative x).
Proof.
  intros Hy Hx; simpl.
  destruct (Req_dec_T y 0); [|contradiction].
  now destruct (Req_dec_T x 0).
Qed.

Lemma f64_div_zero_by_zero (x y : R) :
  y = 0 -> x = 0 -> f64_div (Finite x) (Finite y) = NaN.
Proof.
  intros Hy Hx; simpl.
  destruct (Req_dec_T y 0); [|contradiction].
  now destruct (Req_dec_T x 0).
Qed.

Lemma f64_mul_two_infinity (s : bool) :
  f64_mul (Finite 2) (Infinity s) = Infinity s.
Proof.
  simpl. destruct (Req_dec_T 2 0) as [H|_]; [lra|].
  unfold is_negative. destruct (Rlt_dec 2 0); [lra|reflexivity].
Qed.

Lemma f64_mul_two_zero : f64_mul (Finite 2) (Finite 0) = Finite 0.
Proof.
  simpl. replace (2 * 0) with 0 by lra. apply to_range_zero.
Qed.

Lemma f64_div_zero_by_finite (x : R) :
  x <> 0 -> f64_div (Finite 0) (Finite x) = Finite 0.
Proof.
  intros Hx. rewrite (f64_div_finite 0 x Hx).
  replace (0 / x) with 0 by (unfold Rdiv; lra). apply to_range_zero.
Qed.

(** The two divisions undo each other: [-d / (2 * (d / x)) = -x / 2]. *)
Lemma two_step_identity (d x : R) :
  d <> 0 -> x <> 0 -> - d / (2 * (d / x)) = - x / 2.
Proof. intros Hd Hx. field. split; assumption. Qed.

(** Both divisions of a round have operands of the same joint type, so one
    test tells whether a zero divisor raises. *)
Lemma regret_of_unfold (delta e : value) :
  regret_of delta e =
    match join (ty delta) (ty e) with
    | PyFloat =>
        if is_zero (num e) then Err ZeroDivisionError
        else if is_zero (f64_mul (Finite 2) (f64_div (num delta) (num e)))
             then Err ZeroDivisionError
             else Ok (Value NpFloat64 (round_value (num delta) (num e)))
    | NpFloat64 => Ok (Value NpFloat64 (round_value (num delta) (num e)))
    end.
Proof.
  unfold regret_of, truediv, round_value, np_exp, neg, int_mul.
  destruct (ty delta), (ty e); cbn [join ty num]; try reflexivity.
  destruct (is_zero (num e)); [reflexivity|]. cbn [join ty num].
  now destruct (is_zero _).
Qed.

Lemma regret_of_np (delta e : value) :
  join (ty delta) (ty e) = NpFloat64 ->
  regret_of delta e = Ok (Value NpFloat64 (round_value (num delta) (num e))).
Proof. intros H. now rewrite regret_of_unfold, H. Qed.

(** With a [float64] in the first division, a zero sample makes [b]
    infinite and the round yields [exp(0) = 1]. *)
Lemma regret_of_zero_sample_np (delta e : value) (d : R) :
  num delta = Finite d -> d <> 0 ->
  num e = Finite 0 ->
  join (ty delta) (ty e) = NpFloat64 ->
  regret_of delta e = Ok (np 1).
Proof.
  intros Hd Hd0 He Hj.
  rewrite (regret_of_np _ _ Hj), Hd, He. unfold round_value, np.
  rewrite (f64_div_by_zero d 0 eq_refl Hd0), f64_mul_two_infinity.
  cbn [f64_neg f64_div f64_exp]. now rewrite exp_0, to_range_one.
Qed.

(** Between two Python floats a zero sample raises. *)
Lemma regret_of_zero_sample_py (delta e : value) :
  ty delta = PyFloat -> e = py 0 ->
  regret_of delta e = Err ZeroDivisionError.
Proof.
  intros Ht ->. unfold regret_of, truediv. rewrite Ht.
  cbn [py ty num join]. now rewrite is_zero_zero.
Qed.

(** [delta = 0] and a nonzero real sample: [b = 0], and the second division
    is [-0 / (2 * 0)].  Between Python floats it raises; with a [float64]
    among the operands it is NaN. *)
Lemma first_step_zero_delta (delta e : value) (x : R) :
  num delta = Finite 0 -> num e = Finite x -> x <> 0 ->
  exists b, truediv delta e = Ok b /\ num b = Finite 0 /\
            ty b = join (ty delta) (ty e) /\
            is_zero (num (int_mul 2 b)) = true.
Proof.
  intros Hd Hx Hx0.
  exists (Value (join (ty delta) (ty e)) (Finite 0)).
  unfold truediv, int_mul. rewrite Hd, Hx.
  rewrite (is_zero_finite x Hx0), (f64_div_zero_by_finite x Hx0).
  cbn [num ty]. repeat split.
  - now destruct (join (ty delta) (ty e)).
  - change (Finite (IZR 2)) with (Finite 2).
    rewrite f64_mul_two_zero. now apply is_zero_zero.
Qed.

Lemma regret_of_zero_delta (delta e : value) (x : R) :
  num delta = Finite 0 -> num e = Finite x -> x <> 0 ->
  regret_of delta e =
    match join (ty delta) (ty e) with
    | PyFloat => Err ZeroDivisionError
    | NpFloat64 => Ok (Value NpFloat64 NaN)
    end.
Proof.
  intros Hd Hx Hx0.
  rewrite regret_of_unfold, Hd, Hx. unfold round_value.
  rewrite (is_zero_finite x Hx0), (f64_div_zero_by_finite x Hx0).
  rewrite f64_mul_two_zero, (is_zero_zero 0 eq_refl).
  cbn [f64_neg]. rewrite (f64_div_zero_by_zero (- 0) 0 eq_refl) by lra.
  reflexivity.
Qed.

Lemma regret_of_zero_over_zero_np (delta e : value) :
  num delta = Finite 0 -> num e = Finite 0 -> ty e = NpFloat64 ->
  regret_of delta e = Ok (Value NpFloat64 NaN).
Proof.
  intros Hd He Ht.
  rewrite regret_of_np by (rewrite Ht; now destruct (ty delta)).
  rewrite Hd, He. unfold round_value.
  rewrite (f64_div_zero_by_zero 0 0 eq_refl eq_refl). reflexivity.
Qed.

(** With a [float64] sample, or a [float64] [delta], no division raises,
    and what a round appends is a [float64]. *)
Lemma regret_of_np_sample delta e :
  ty e = NpFloat64 -> exists p, regret_of delta e = Ok p.
Proof.
  intros He. rewrite regret_of_np; [now eexists|].
  rewrite He. now destruct (ty delta).
Qed.

Lemma regret_of_np_delta delta e :
  ty delta = NpFloat64 -> exists p, regret_of delta e = Ok p.
Proof.
  intros Hd. rewrite regret_of_np; [now eexists|]. now rewrite Hd.
Qed.

Lemma regret_of_type delta e p :
  regret_of delta e = Ok p -> ty p = NpFloat64.
Proof.
  rewrite regret_of_unfold.
  destruct (join (ty delta) (ty e)).
  - destruct (is_zero (num e)); [discriminate|].
    destruct (is_zero _); [discriminate|]. now intros [= <-].
  - now intros [= <-].
Qed.

(** ** Rounds in the normal range *)

Lemma quotient_nonzero (d x : R) : 0 < Rabs (d / x) -> d <> 0 /\ x <> 0.
Proof.
  intros H. split; intros ->.
  - unfold Rdiv in H. rewrite Rmult_0_l, Rabs_R0 in H. lra.
  - unfold Rdiv in H. rewrite Rinv_0, Rmult_0_r, Rabs_R0 in H. lra.
Qed.

Lemma nonzero_quotient_nonzero (d x : R) :
  nonzero_quotient d x -> d <> 0 /\ x <> 0.
Proof.
  intros H. apply quotient_nonzero.
  pose proof (pow2_pos (-1074)). unfold nonzero_quotient in H. lra.
Qed.

Lemma normal_quotient_nonzero_quotient (d x : R) :
  normal_quotient d x -> nonzero_quotient d x.
Proof.
  intros [H _]. unfold nonzero_quotient.
  pose proof (pow2_le (-1074) (-1022) ltac:(lia)). lra.
Qed.

(** A quotient that does not round to zero: [b] and [2 * b] are nonzero,
    finite or infinite. *)
Lemma doubled_quotient_not_zero (d x : R) :
  nonzero_quotient d x ->
  is_zero (f64_mul (Finite 2) (f64_div (Finite d) (Finite x))) = false.
Proof.
  intros H. destruct (nonzero_quotient_nonzero d x H) as [Hd Hx].
  unfold nonzero_quotient in H.
  pose proof underflow_below_subnormal as Hut.
  pose proof underflow_threshold_pos as Hpos.
  rewrite (f64_div_finite d x Hx).
  destruct (to_range_cases (d / x)) as [[Hlo _]|[[Hin ->]|[_ ->]]].
  - lra.
  - cbn [f64_mul].
    assert (Habs : Rabs (2 * (d / x)) = 2 * Rabs (d / x)).
    { rewrite Rabs_mult, (Rabs_pos_eq 2); lra. }
    destruct (to_range_cases (2 * (d / x))) as [[Hlo _]|[[_ ->]|[_ ->]]].
    + lra.
    + apply is_zero_finite. intros H0. rewrite H0, Rabs_R0 in Habs. lra.
    + reflexivity.
  - now rewrite f64_mul_two_infinity.
Qed.

(** In the normal range both quotients and the product are in range, and
    the round computes [exp] of [-x / 2]. *)
Lemma round_value_normal (d x : R) :
  normal_quotient d x ->
  round_value (Finite d) (Finite x) = f64_exp (to_range (- x / 2)).
Proof.
  intros H.
  destruct (nonzero_quotient_nonzero d x
              (normal_quotient_nonzero_quotient d x H)) as [Hd Hx].
  destruct H as [Hlo Hhi].
  pose proof underflow_below_subnormal as Hut.
  pose proof underflow_threshold_pos as Hpos.
  pose proof overflow_threshold_large as Hot.
  pose proof (pow2_le (-1074) (-1022) ltac:(lia)) as H1.
  pose proof (pow2_succ 1022) as H2. change (1022 + 1)%Z with 1023%Z in H2.
  unfold round_value.
  rewrite (f64_div_finite d x Hx), (to_range_in (d / x)) by lra.
  cbn [f64_mul f64_neg].
  assert (Habs : Rabs (2 * (d / x)) = 2 * Rabs (d / x)).
  { rewrite Rabs_mult, (Rabs_pos_eq 2); lra. }
  rewrite (to_range_in (2 * (d / x))) by lra.
  assert (H2b : 2 * (d / x) <> 0).
  { intros H0. rewrite H0, Rabs_R0 in Habs. lra. }
  rewrite (f64_div_finite (- d) _ H2b).
  now rewrite two_step_identity.
Qed.

Lemma regret_of_well_conditioned (delta e : value) :
  well_conditioned delta e ->
  exists x,
    num e = Finite x /\ 0 < x /\
    regret_of delta e
      = Ok (Value NpFloat64 (f64_exp (to_range (- x / 2)))).
Proof.
  intros (d & x & Hd & Hx & Hx0 & Hq).
  exists x. split; [exact Hx|]. split; [exact Hx0|].
  rewrite regret_of_unfold, Hd, Hx.
  rewrite (is_zero_finite x) by lra.
  rewrite (doubled_quotient_not_zero d x)
    by now apply normal_quotient_nonzero_quotient.
  rewrite (round_value_normal d x Hq).
  now destruct (join (ty delta) (ty e)).
Qed.

(** Bounds on [exp] at negative arguments. *)
Lemma exp_neg_upper (h u : R) :
  0 < h -> 1 <= u * (1 + h) -> exp (- h) <= u.
Proof.
  intros Hh Hu.
  pose proof (exp_ineq1_le h) as H1.
  pose proof (exp_pos (- h)) as H2.
  assert (H3 : exp (- h) * exp h = 1).
  { rewrite <- exp_plus. replace (- h + h) with 0 by lra. apply exp_0. }
  nra.
Qed.

Lemma exp_neg_lt_1 (h : R) : 0 < h -> exp (- h) < 1.
Proof. intros H. rewrite <- exp_0. apply exp_increasing. lra. Qed.

(** The value of a round on a positive sample [x], in the normal range:
    [1] when [x / 2] underflows, [0] when [exp(-x / 2)] does, and
    [exp(-x / 2)] in between. *)
Lemma curve_cases (x : R) :
  0 < x ->
  exists r,
    f64_exp (to_range (- x / 2)) = Finite r /\
    ((x / 2 <= underflow_threshold /\ r = 1) \/
     (underflow_threshold < x / 2 < overflow_threshold /\
      underflow_threshold < exp (- x / 2) /\ r = exp (- x / 2)) \/
     (underflow_threshold < x / 2 /\ r = 0 /\
      (exp (- x / 2) <= underflow_threshold \/
       overflow_threshold <= x / 2))).
Proof.
  intros Hx.
  assert (Habs : Rabs (- x / 2) = x / 2).
  { replace (- x / 2) with (- (x / 2)) by lra.
    rewrite Rabs_Ropp, Rabs_pos_eq; lra. }
  pose proof overflow_threshold_big as Hot.
  pose proof (exp_pos (- x / 2)) as Hep.
  assert (He1 : exp (- x / 2) < 1).
  { replace (- x / 2) with (- (x / 2)) by lra. apply exp_neg_lt_1. lra. }
  destruct (to_range_cases (- x / 2)) as [[Hlo ->]|[[Hin ->]|[Hhi ->]]];
    rewrite Habs in *.
  - exists 1. cbn [f64_exp]. rewrite exp_0, to_range_one.
    split; [reflexivity|]. left. now split.
  - cbn [f64_exp].
    destruct (to_range_cases (exp (- x / 2)))
      as [[Hlo ->]|[[Hin' ->]|[Hhi _]]];
      rewrite (Rabs_pos_eq (exp (- x / 2))) in * by lra.
    + exists 0. split; [reflexivity|]. right; right.
      split; [lra|]. split; [reflexivity|]. now left.
    + exists (exp (- x / 2)). split; [reflexivity|]. right; left.
      split; [exact Hin|]. split; [lra|reflexivity].
    + lra.
  - rewrite is_negative_neg by lra. exists 0. cbn [f64_exp].
    split; [reflexivity|]. right; right.
    pose proof underflow_threshold_small.
    split; [lra|]. split; [reflexivity|]. now right.
Qed.

Lemma curve_unit (x r : R) :
  0 < x -> f64_exp (to_range (- x / 2)) = Finite r -> 0 <= r <= 1.
Proof.
  intros Hx Hr. destruct (curve_cases x Hx) as (r' & Hr' & Hc).
  rewrite Hr in Hr'. injection Hr' as <-.
  pose proof (exp_pos (- x / 2)).
  assert (exp (- x / 2) < 1).
  { replace (- x / 2) with (- (x / 2)) by lra. apply exp_neg_lt_1. lra. }
  destruct Hc as [[_ ->]|[(_ & _ & ->)|(_ & -> & _)]]; lra.
Qed.

(** Within a billionth of the closed form. *)
Lemma curve_close (x r : R) :
  0 < x -> f64_exp (to_range (- x / 2)) = Finite r ->
  Rabs (r - exp (- x / 2)) <= / 1000000000.
Proof.
  intros Hx Hr. destruct (curve_cases x Hx) as (r' & Hr' & Hc).
  rewrite Hr in Hr'. injection Hr' as <-.
  pose proof (exp_pos (- x / 2)) as Hep.
  pose proof underflow_threshold_small as Hut.
  pose proof overflow_threshold_big as Hot.
  assert (He1 : exp (- x / 2) < 1).
  { replace (- x / 2) with (- (x / 2)) by lra. apply exp_neg_lt_1. lra. }
  destruct Hc as [[Hlo ->]|[(_ & _ & ->)|(_ & -> & [Hlo|Hhi])]].
  - pose proof (exp_ineq1_le (- x / 2)).
    rewrite Rabs_pos_eq; lra.
  - replace (exp (- x / 2) - exp (- x / 2)) with 0 by lra.
    rewrite Rabs_R0. lra.
  - rewrite Rabs_left1; lra.
  - assert (exp (- (x / 2)) <= / 1000000000).
    { apply exp_neg_upper; lra. }
    replace (- x / 2) with (- (x / 2)) in * by lra.
    rewrite Rabs_left1; lra.
Qed.

(** A larger sample never has a larger value. *)
Lemma curve_monotone (x1 x2 r1 r2 : R) :
  0 < x1 -> x1 < x2 ->
  f64_exp (to_range (- x1 / 2)) = Finite r1 ->
  f64_exp (to_range (- x2 / 2)) = Finite r2 ->
  r2 <= r1.
Proof.
  intros Hx1 Hlt H1 H2.
  assert (Hx2 : 0 < x2) by lra.
  pose proof (curve_unit x2 r2 Hx2 H2) as Hu2.
  destruct (curve_cases x1 Hx1) as (r & Hr & Hc1).
  rewrite H1 in Hr. injection Hr as <-.
  destruct (curve_cases x2 Hx2) as (r & Hr & Hc2).
  rewrite H2 in Hr. injection Hr as <-.
  assert (Hexp : exp (- x2 / 2) < exp (- x1 / 2))
    by (apply exp_increasing; lra).
  pose proof (exp_pos (- x2 / 2)).
  destruct Hc1 as [[_ ->]|[(Hin1 & He1 & ->)|(Hlo1 & -> & Hz1)]].
  - lra.
  - destruct Hc2 as [[Hlo2 _]|[(_ & _ & ->)|(_ & -> & _)]]; lra.
  - destruct Hc2 as [[Hlo2 _]|[(Hin2 & He2 & _)|(_ & -> & _)]];
      [lra| |lra].
    destruct Hz1; lra.
Qed.

(** ** Rounds that cannot raise *)

Lemma regret_of_no_zero_division (delta e : value) :
  no_zero_division delta e ->
  regret_of delta e = Ok (Value NpFloat64 (round_value (num delta) (num e))).
Proof.
  intros [Hj|(d & x & Hd & Hx & Hq)].
  - now apply regret_of_np.
  - destruct (nonzero_quotient_nonzero d x Hq) as [_ Hx0].
    rewrite regret_of_unfold, Hd, Hx.
    rewrite (is_zero_finite x Hx0), (doubled_quotient_not_zero d x Hq).
    now destruct (join (ty delta) (ty e)).
Qed.

(** A positive [delta] over a positive sample, whatever becomes of the
    quotient: the value of the round is a real between 0 and 1.  An
    overflowing [b] gives 1, a [b] that underflows to zero gives 0. *)
Lemma round_value_positive (d x : R) :
  0 < d -> 0 < x ->
  exists r, round_value (Finite d) (Finite x) = Finite r /\ 0 <= r <= 1.
Proof.
  intros Hd Hx.
  assert (Hq : 0 < d / x) by (apply Rdiv_lt_0_compat; lra).
  assert (Hx0 : x <> 0) by lra.
  pose proof underflow_threshold_pos as Hpos.
  unfold round_value. rewrite (f64_div_finite d x Hx0). cbn [f64_neg].
  assert (Hone : f64_exp (Finite 0) = Finite 1).
  { cbn [f64_exp]. now rewrite exp_0, to_range_one. }
  destruct (to_range_cases (d / x)) as [[_ ->]|[[Hin ->]|[_ ->]]].
  - rewrite f64_mul_two_zero.
    rewrite (f64_div_by_zero (- d) 0 eq_refl) by lra.
    rewrite is_negative_neg by lra. cbn [f64_exp].
    exists 0. split; [reflexivity|lra].
  - cbn [f64_mul]. rewrite (Rabs_pos_eq (d / x)) in Hin by lra.
    assert (Habs : Rabs (2 * (d / x)) = 2 * (d / x))
      by (apply Rabs_pos_eq; lra).
    destruct (to_range_cases (2 * (d / x)))
      as [[Hlo _]|[[_ ->]|[_ ->]]].
    + lra.
    + rewrite (f64_div_finite (- d) (2 * (d / x))) by lra.
      rewrite two_step_identity by lra.
      destruct (curve_cases x Hx) as (r & Hr & _).
      exists r. split; [exact Hr|]. exact (curve_unit x r Hx Hr).
    + rewrite is_negative_pos by lra. cbn [f64_div]. rewrite Hone.
      exists 1. split; [reflexivity|lra].
  - rewrite is_negative_pos by lra. rewrite f64_mul_two_infinity.
    cbn [f64_div]. rewrite Hone. exists 1. split; [reflexivity|lra].
Qed.

(** ** The loop as a whole *)

Lemma sweep_all_ok delta (f : value -> value) eps :
  (forall e, In e eps -> regret_of delta e = Ok (f e)) ->
  forall acc, sweep delta eps acc = (acc ++ map f eps, None).
Proof.
  induction eps as [|e rest IH]; intros H acc; simpl.
  - now rewrite app_nil_r.
  - rewrite (H e) by now left.
    rewrite IH by (intros e' He'; apply H; now right).
    now rewrite <- app_assoc.
Qed.

Lemma sweep_some_err delta eps :
  (exists e x, In e eps /\ regret_of delta e = Err x) ->
  forall acc, exists ps, sweep delta eps acc = (ps, Some ZeroDivisionError).
Proof.
  induction eps as [|e rest IH]; intros (e' & x & Hin & He') acc.
  - destruct Hin.
  - simpl. destruct (regret_of delta e) as [p|[]] eqn:He.
    + apply IH. destruct Hin as [->|Hin]; [congruence|].
      now exists e', x.
    + now exists acc.
Qed.

Lemma sweep_aligned delta eps :
  forall acc ps,
    sweep delta eps acc = (ps, None) ->
    exists qs, ps = acc ++ qs /\
               Forall2 (fun e p => regret_of delta e = Ok p) eps qs.
Proof.
  induction eps as [|e rest IH]; intros acc ps; simpl.
  - intros [= <-]. exists []. split; [now rewrite app_nil_r|constructor].
  - destruct (regret_of delta e) as [p|x] eqn:He; [|discriminate].
    intros H. destruct (IH _ _ H) as (qs & -> & Hqs).
    exists (p :: qs). split.
    + now rewrite <- app_assoc.
    + now constructor.
Qed.

Lemma sweep_cases delta eps acc :
  (exists ps, sweep delta eps acc = (ps, None)) \/
  (exists ps, sweep delta eps acc = (ps, Some ZeroDivisionError)).
Proof.
  destruct (sweep delta eps acc) as [ps [[]|]]; [right|left]; now exists ps.
Qed.

Lemma returns_of_sweep delta epsilons w eps ps :
  nth_error (heap w) epsilons = Some eps ->
  sweep delta eps [] = (ps, None) ->
  simulate_preference_regret delta epsilons w =
    Returns (epsilons, length (heap w)) (set_heap (heap w ++ [ps]) w).
Proof.
  intros Hs Hsw. now rewrite (simulate_spec _ _ _ _ Hs), Hsw.
Qed.

Lemma raises_of_sweep delta epsilons w eps ps e :
  nth_error (heap w) epsilons = Some eps ->
  sweep delta eps [] = (ps, Some e) ->
  simulate_preference_regret delta epsilons w =
    Raises e (set_heap (heap w ++ [ps]) w).
Proof.
  intros Hs Hsw. now rewrite (simulate_spec _ _ _ _ Hs), Hsw.
Qed.

Lemma returns_regret_of_sweep delta epsilons w eps ps :
  nth_error (heap w) epsilons = Some eps ->
  sweep delta eps [] = (ps, None) ->
  returns_regret delta epsilons w ps.
Proof.
  intros Hs Hsw. eexists _, _. split.
  - exact (returns_of_sweep _ _ _ _ _ Hs Hsw).
  - apply nth_error_fresh.
Qed.

(** The call has one result. *)
Lemma returns_regret_unique delta epsilons w ps qs :
  returns_regret delta epsilons w ps ->
  returns_regret delta epsilons w qs ->
  ps = qs.
Proof.
  intros (r & w1 & H1 & Hp) (r' & w2 & H2 & Hq).
  rewrite H1 in H2. injection H2 as <- <-. congruence.
Qed.

Lemma returns_not_raises delta epsilons w ps e :
  returns_regret delta epsilons w ps -> ~ raises delta epsilons w e.
Proof.
  intros (r & w1 & H1 & _) (w2 & H2). congruence.
Qed.

Lemma nth_closed_form eps i e x :
  nth_error eps i = Some e -> num e = Finite x ->
  nth_error (map closed_form eps) i = Some (np (exp (- x / 2))).
Proof.
  intros Hi Hx. rewrite nth_error_map, Hi. simpl.
  unfold closed_form. now rewrite Hx.
Qed.

Lemma forall2_nth_error {A B} (P : A -> B -> Prop) (l : list A) (l' : list B) :
  Forall2 P l l' ->
  forall i a, nth_error l i = Some a ->
  exists b, nth_error l' i = Some b /\ P a b.
Proof.
  induction 1 as [|x y l l' Hxy _ IH]; intros [|i] a; simpl; try discriminate.
  - intros [= <-]. now exists y.
  - apply IH.
Qed.

Lemma sweep_total delta eps :
  (forall e, In e eps -> exists p, regret_of delta e = Ok p) ->
  forall acc, exists ps, sweep delta eps acc = (ps, None).
Proof.
  induction eps as [|e rest IH]; intros H acc; simpl.
  - now exists acc.
  - destruct (H e) as (p & ->); [now left|].
    apply IH. intros e' He'. apply H. now right.
Qed.

(** Rounds that all succeed: the call returns a list aligned with the
    samples, each element the result of the round on its sample. *)
Lemma call_returns_when_rounds_ok delta epsilons w eps :
  nth_error (heap w) epsilons = Some eps ->
  (forall e, In e eps -> exists p, regret_of delta e = Ok p) ->
  exists ps,
    simulate_preference_regret delta epsilons w
      = Returns (epsilons, length (heap w)) (set_heap (heap w ++ [ps]) w) /\
    Forall2 (fun e p => regret_of delta e = Ok p) eps ps.
Proof.
  intros Hs Hok.
  destruct (sweep_total delta eps Hok []) as (ps & Hsw).
  exists ps. split.
  - exact (returns_of_sweep _ _ _ _ _ Hs Hsw).
  - destruct (sweep_aligned _ _ _ _ Hsw) as (qs & -> & Hqs). exact Hqs.
Qed.

Lemma sweep_acc delta eps :
  forall acc,
    sweep delta eps acc
      = (acc ++ fst (sweep delta eps []), snd (sweep delta eps [])).
Proof.
  induction eps as [|e rest IH]; intros acc; simpl.
  - now rewrite app_nil_r.
  - destruct (regret_of delta e) as [p|x]; simpl.
    + rewrite (IH (acc ++ [p])), (IH [p]). simpl.
      now rewrite <- app_assoc.
    + now rewrite app_nil_r.
Qed.

Lemma sweep_app delta xs ys :
  forall acc,
    sweep delta (xs ++ ys) acc =
      match sweep delta xs acc with
      | (a, None) => sweep delta ys a
      | (a, Some e) => (a, Some e)
      end.
Proof.
  induction xs as [|x rest IH]; intros acc; simpl; [reflexivity|].
  destruct (regret_of delta x) as [p|e]; [apply IH|reflexivity].
Qed.

Lemma sweep_of_returns_regret delta epsilons w eps ps :
  nth_error (heap w) epsilons = Some eps ->
  returns_regret delta epsilons w ps ->
  sweep delta eps [] = (ps, None).
Proof.
  intros Hs (r & w' & Hret & Hps).
  rewrite (simulate_spec _ _ _ _ Hs) in Hret.
  destruct (sweep delta eps []) as [qs [e|]]; [discriminate|].
  injection Hret as <- <-. simpl in Hps.
  rewrite nth_error_fresh in Hps. congruence.
Qed.

Lemma sweep_of_raises delta epsilons w eps e :
  nth_error (heap w) epsilons = Some eps ->
  raises delta epsilons w e ->
  snd (sweep delta eps []) = Some e.
Proof.
  intros Hs (w' & Hr).
  rewrite (simulate_spec _ _ _ _ Hs) in Hr.
  destruct (sweep delta eps []) as [qs [x|]]; [|discriminate].
  now injection Hr as <- _.
Qed.

Lemma raises_of_sweep_snd delta epsilons w eps e :
  nth_error (heap w) epsilons = Some eps ->
  snd (sweep delta eps []) = Some e ->
  raises delta epsilons w e.
Proof.
  intros Hs He.
  destruct (sweep delta eps []) as [ps x] eqn:Hsw. simpl in He. subst x.
  eexists. exact (raises_of_sweep _ _ _ _ _ _ Hs Hsw).
Qed.

Lemma bind_returns {A B} (m : M A) (k : A -> M B) (w : world) a w' :
  m w = Returns a w' -> bind m k w = k a w'.
Proof. intros H. unfold bind. now rewrite H. Qed.


(** ** The curve in the normal range *)

Lemma sweep_well_conditioned delta eps :
  Forall (well_conditioned delta) eps ->
  sweep delta eps [] = (map curve eps, None).
Proof.
  intros Hwc. apply (sweep_all_ok delta curve eps).
  intros e He. rewrite Forall_forall in Hwc.
  destruct (regret_of_well_conditioned delta e (Hwc e He))
    as (x & Hx & _ & Hr).
  unfold curve. now rewrite Hx.
Qed.

Lemma nth_curve delta eps i e x :
  Forall (well_conditioned delta) eps ->
  nth_error eps i = Some e -> num e = Finite x ->
  0 < x /\
  exists r,
    f64_exp (to_range (- x / 2)) = Finite r /\
    nth_error (map curve eps) i = Some (np r).
Proof.
  intros Hwc Hi Hx. rewrite Forall_forall in Hwc.
  destruct (Hwc e (nth_error_In _ _ Hi)) as (d & x' & _ & Hx' & Hpos & _).
  assert (x' = x) by congruence. subst x'.
  split; [exact Hpos|].
  destruct (curve_cases x Hpos) as (r & Hr & _).
  exists r. split; [exact Hr|].
  rewrite nth_error_map, Hi. cbn [option_map].
  unfold curve, np. now rewrite Hx, Hr.
Qed.

(** Powers of two bound the exponential of a negative integer. *)
Lemma exp_neg_nat (n : nat) : exp (- INR n) <= / 2 ^ n.
Proof.
  induction n as [|n IH].
  - simpl. rewrite Ropp_0, exp_0. lra.
  - rewrite S_INR.
    replace (- (INR n + 1)) with (- INR n + Ropp 1) by lra.
    rewrite exp_plus. cbn [pow].
    assert (H1 : exp (Ropp 1) <= / 2)
      by (apply (exp_neg_upper 1 (/ 2)); lra).
    pose proof (exp_pos (- INR n)). pose proof (exp_pos (Ropp 1)).
    assert (H2 : 0 < / 2 ^ n).
    { apply Rinv_0_lt_compat, pow_lt. lra. }
    rewrite Rinv_mult.
    apply Rle_trans with (exp (- INR n) * / 2); [nra|]. nra.
Qed.

Lemma exp_neg_int (z : Z) :
  (0 <= z)%Z -> exp (- IZR z) <= powerRZ 2 (- z).
Proof.
  intros Hz. rewrite <- (Z2Nat.id z Hz), <- INR_IZR_INZ.
  rewrite powerRZ_neg', <- pow_powerRZ. apply exp_neg_nat.
Qed.

(** [exp] underflows to zero from [-1075] down. *)
Lemma exp_underflows (z : Z) :
  (1075 <= z)%Z -> f64_exp (Finite (- IZR z)) = Finite 0.
Proof.
  intros Hz. cbn [f64_exp]. apply to_range_tiny.
  pose proof (exp_pos (- IZR z)). rewrite Rabs_pos_eq by lra.
  apply Rle_trans with (powerRZ 2 (- z)); [apply exp_neg_int; lia|].
  apply pow2_le. lia.
Qed.

Lemma normal_quotient_moderate (d x : R) :
  / 1073741824 <= Rabs (d / x) <= 1073741824 -> normal_quotient d x.
Proof.
  intros [Hlo Hhi]. unfold normal_quotient.
  pose proof (pow2_le (-1022) (-30) ltac:(lia)) as H1.
  pose proof (pow2_le 30 1022 ltac:(lia)) as H2.
  rewrite pow2_m30 in H1. rewrite pow2_30 in H2. lra.
Qed.

Lemma well_conditioned_moderate (delta e : value) (d x : R) :
  num delta = Finite d -> num e = Finite x -> 0 < x ->
  / 1073741824 <= Rabs (d / x) <= 1073741824 ->
  well_conditioned delta e.
Proof.
  intros Hd Hx Hx0 Hq. exists d, x.
  repeat split; auto; now apply normal_quotient_moderate.
Qed.

(** The value of a round for [delta = 1.0] on the samples 4000 and 6000:
    [exp(-2000)] and [exp(-3000)] underflow to [0.0]. *)
Lemma regret_of_underflow (z : Z) (t : pytype) :
  (1075 <= z <= 536870912)%Z ->
  regret_of (py 1) (Value t (Finite (2 * IZR z))) = Ok (np 0).
Proof.
  intros Hz.
  assert (Hz1 : 1075 <= IZR z) by (apply IZR_le; lia).
  assert (Hz2 : IZR z <= 536870912) by (apply IZR_le; lia).
  assert (Hwc : well_conditioned (py 1) (Value t (Finite (2 * IZR z)))).
  { apply (well_conditioned_moderate _ _ 1 (2 * IZR z));
      try reflexivity; [lra|].
    assert (Hq : 0 < 1 / (2 * IZR z)) by (apply Rdiv_lt_0_compat; lra).
    rewrite Rabs_pos_eq by lra. unfold Rdiv. rewrite Rmult_1_l. split.
    - apply Rinv_le_contravar; lra.
    - apply Rle_trans with 1; [|lra].
      rewrite <- Rinv_1. apply Rinv_le_contravar; lra. }
  destruct (regret_of_well_conditioned _ _ Hwc) as (x & Hx & _ & Hr).
  cbn [num] in Hx. injection Hx as <-. rewrite Hr.
  replace (- (2 * IZR z) / 2) with (- IZR z) by lra.
  pose proof underflow_threshold_small. pose proof overflow_threshold_big.
  rewrite (to_range_in (- IZR z))
    by (rewrite Rabs_Ropp, Rabs_pos_eq; lra).
  now rewrite exp_underflows by lia.
Qed.

(** The value of a round for [delta = 2^1023] on the sample 0.5: the
    quotient [2^1024] overflows, [b] is infinite and the regret is 1. *)
Lemma regret_of_overflow (t u : pytype) :
  regret_of (Value t (Finite (powerRZ 2 1023))) (Value u (Finite (1 / 2)))
    = Ok (np 1).
Proof.
  pose proof (pow2_pos 1023) as Hp.
  assert (Hq : powerRZ 2 1023 / (1 / 2) = powerRZ 2 1024).
  { change 1024%Z with (1023 + 1)%Z. rewrite pow2_succ. field. }
  assert (Hb : f64_div (Finite (powerRZ 2 1023)) (Finite (1 / 2))
               = Infinity false).
  { rewrite f64_div_finite by lra. rewrite Hq.
    pose proof (pow2_pos 1024). pose proof overflow_threshold_below.
    rewrite to_range_huge by (rewrite Rabs_pos_eq; lra).
    now rewrite is_negative_pos by lra. }
  rewrite regret_of_unfold. cbn [num]. unfold round_value.
  rewrite (is_zero_finite (1 / 2)) by lra.
  rewrite Hb, f64_mul_two_infinity.
  cbn [is_zero f64_neg f64_div f64_exp]. rewrite exp_0, to_range_one.
  cbn [ty]. destruct (join t u); reflexivity.
Qed.

(** Closes the side conditions of a concrete list of positive samples. *)
Ltac positive_samples :=
  repeat constructor; eexists; (split; [reflexivity|lra]).

(** Shows a concrete pair of [delta] and sample well conditioned. *)
Ltac moderate d x :=
  apply (well_conditioned_moderate _ _ d x);
  [reflexivity | reflexivity | lra
  | unfold Rabs; destruct (Rcase_abs _); lra].

Section NormalRange.

(** A store that holds the samples [eps] at [epsilons]; [delta] and every
    sample are reals, the samples strictly positive, and every quotient
    [delta / eps[i]] is in the normal range. *)
Variables (w : world) (epsilons : loc) (eps : list value) (delta : value).
Hypothesis Hstore : nth_error (heap w) epsilons = Some eps.
Hypothesis Hnormal : Forall (well_conditioned delta) eps.

Lemma call_returns_curve : returns_regret delta epsilons w (map curve eps).
Proof.
  apply (returns_regret_of_sweep _ _ _ eps _ Hstore).
  exact (sweep_well_conditioned delta eps Hnormal).
Qed.

(** C1 (as amended).  For strictly positive samples and a [delta] with
    every quotient [delta / eps[i]] in the normal range of binary64 the call
    returns, and element [i] of the regret sequence is within [1e-9] of
    [exp(-eps[i] / 2)]. *)
Theorem regret_within_tolerance_of_exp :
  exists ps,
    returns_regret delta epsilons w ps /\
    length ps = length eps /\
    forall i e x,
      nth_error eps i = Some e -> num e = Finite x ->
      exists r,
        nth_error ps i = Some (np r) /\
        Rabs (r - exp (- x / 2)) <= / 1000000000.
Proof.
  exists (map curve eps).
  split; [exact call_returns_curve|].
  split; [apply length_map|].
  intros i e x Hi Hx.
  destruct (nth_curve delta eps i e x Hnormal Hi Hx)
    as (Hpos & r & Hr & Hnth).
  exists r. split; [exact Hnth|]. exact (curve_close x r Hpos Hr).
Qed.

(** C3 (as amended).  For strictly positive samples and a [delta] with
    every quotient in the normal range, a larger sample never has a larger
    regret: [eps[i] < eps[j]] gives [regret[j] <= regret[i]]. *)
Theorem regret_never_increases :
  exists ps,
    returns_regret delta epsilons w ps /\
    forall i j ei ej xi xj,
      nth_error eps i = Some ei -> nth_error eps j = Some ej ->
      num ei = Finite xi -> num ej = Finite xj -> xi < xj ->
      exists ri rj,
        nth_error ps i = Some (np ri) /\ nth_error ps j = Some (np rj) /\
        rj <= ri.
Proof.
  exists (map curve eps).
  split; [exact call_returns_curve|].
  intros i j ei ej xi xj Hi Hj Hxi Hxj Hlt.
  destruct (nth_curve delta eps i ei xi Hnormal Hi Hxi)
    as (Hpi & ri & Hri & Hni).
  destruct (nth_curve delta eps j ej xj Hnormal Hj Hxj)
    as (Hpj & rj & Hrj & Hnj).
  exists ri, rj. split; [exact Hni|]. split; [exact Hnj|].
  exact (curve_monotone xi xj ri rj Hpi Hlt Hri Hrj).
Qed.

(** C9 (as amended).  When the quotients [1.0 / eps[i]] are in the normal
    range as well, the call with [delta] and the call with [delta = 1.0]
    both return, and their regrets agree within [1e-9] at every index,
    whatever the sign of [delta]. *)
Theorem regret_agrees_with_unit_delta :
  Forall (well_conditioned (py 1)) eps ->
  exists ps qs,
    returns_regret delta epsilons w ps /\
    returns_regret (py 1) epsilons w qs /\
    length ps = length eps /\ length qs = length eps /\
    forall i, (i < length eps)%nat ->
      exists r s,
        nth_error ps i = Some (np r) /\ nth_error qs i = Some (np s) /\
        Rabs (r - s) <= / 1000000000.
Proof.
  intros Hone. exists (map curve eps), (map curve eps).
  split; [exact call_returns_curve|].
  split.
  { apply (returns_regret_of_sweep _ _ _ eps _ Hstore).
    exact (sweep_well_conditioned (py 1) eps Hone). }
  split; [apply length_map|]. split; [apply length_map|].
  intros i Hi.
  destruct (nth_error eps i) as [e|] eqn:He;
    [|apply nth_error_None in He; lia].
  pose proof Hnormal as Hwc. rewrite Forall_forall in Hwc.
  destruct (Hwc e (nth_error_In _ _ He)) as (d & x & _ & Hx & _).
  destruct (nth_curve delta eps i e x Hnormal He Hx)
    as (_ & r & _ & Hnth).
  exists r, r. split; [exact Hnth|]. split; [exact Hnth|].
  replace (r - r) with 0 by lra. rewrite Rabs_R0. lra.
Qed.

End NormalRange.

Lemma regret_within_tolerance_of_exp_witness :
  exists ps,
    returns_regret (py 3) 0 (World [[np 1; py 2]] empty_figure) ps /\
    length ps = 2%nat /\
    forall i e x,
      nth_error [np 1; py 2] i = Some e -> num e = Finite x ->
      exists r,
        nth_error ps i = Some (np r) /\
        Rabs (r - exp (- x / 2)) <= / 1000000000.
Proof.
  apply (regret_within_tolerance_of_exp
           (World [[np 1; py 2]] empty_figure) 0 [np 1; py 2] (py 3)).
  - reflexivity.
  - repeat constructor; [moderate 3 1|moderate 3 2].
Defined.

(** C1 fails as stated: with [delta = 0.0] and the array [[1.0]] the call
    returns NaN for the sample, which is not [exp(-1/2)]. *)
Lemma regret_identity_fails_at_zero_delta :
  simulate_preference_regret (py 0) 0 (World [[np 1]] empty_figure)
    = Returns (0%nat, 1%nat)
        (World [[np 1]; [Value NpFloat64 NaN]] empty_figure) /\
  Value NpFloat64 NaN <> np (exp (- 1 / 2)).
Proof.
  split; [|discriminate].
  apply (returns_of_sweep (py 0) 0 (World [[np 1]] empty_figure) [np 1]).
  - reflexivity.
  - cbn [sweep].
    rewrite (regret_of_zero_delta (py 0) (np 1) 1) by (simpl; auto; lra).
    reflexivity.
Qed.

(** C1 fails as stated, three times over: [delta = 0.0] gives NaN;
    [delta = 2^1023] on [[0.5]] makes [b] overflow and gives 1.0, not
    [exp(-0.25)]; and on [[4000.0]] the exponential underflows to 0.0,
    which [exp(-2000)] is not. *)
Lemma regret_identity_fails :
  (simulate_preference_regret (py 0) 0 (World [[np 1]] empty_figure)
     = Returns (0%nat, 1%nat)
         (World [[np 1]; [Value NpFloat64 NaN]] empty_figure) /\
   Value NpFloat64 NaN <> np (exp (- 1 / 2))) /\
  (simulate_preference_regret (py (powerRZ 2 1023)) 0
     (World [[np (1 / 2)]] empty_figure)
     = Returns (0%nat, 1%nat)
         (World [[np (1 / 2)]; [np 1]] empty_figure) /\
   np 1 <> np (exp (- (1 / 2) / 2))) /\
  (simulate_preference_regret (py 1) 0 (World [[np 4000]] empty_figure)
     = Returns (0%nat, 1%nat) (World [[np 4000]; [np 0]] empty_figure) /\
   np 0 <> np (exp (- 4000 / 2))).
Proof.
  split; [exact regret_identity_fails_at_zero_delta|]. split; split.
  - apply (returns_of_sweep _ 0 (World [[np (1 / 2)]] empty_figure)
             [np (1 / 2)]); [reflexivity|].
    cbn [sweep]. unfold py, np at 1.
    now rewrite regret_of_overflow.
  - intros H. injection H as H.
    assert (exp (- (1 / 2) / 2) < 1).
    { replace (- (1 / 2) / 2) with (- (1 / 4)) by lra.
      apply exp_neg_lt_1. lra. }
    lra.
  - apply (returns_of_sweep _ 0 (World [[np 4000]] empty_figure)
             [np 4000]); [reflexivity|].
    cbn [sweep]. unfold np at 1.
    replace 4000 with (2 * IZR 2000) by lra.
    now rewrite regret_of_underflow by lia.
  - intros H. injection H as H.
    pose proof (exp_pos (- 4000 / 2)). lra.
Qed.

Lemma regret_never_increases_witness :
  exists ps,
    returns_regret (py 1) 0 (World [[np 2; np 1]] empty_figure) ps /\
    forall i j ei ej xi xj,
      nth_error [np 2; np 1] i = Some ei ->
      nth_error [np 2; np 1] j = Some ej ->
      num ei = Finite xi -> num ej = Finite xj -> xi < xj ->
      exists ri rj,
        nth_error ps i = Some (np ri) /\ nth_error ps j = Some (np rj) /\
        rj <= ri.
Proof.
  apply (regret_never_increases
           (World [[np 2; np 1]] empty_figure) 0 [np 2; np 1] (py 1)).
  - reflexivity.
  - repeat constructor; [moderate 1 2|moderate 1 1].
Defined.

(** C3 fails as stated: with [delta = 0.0] the array [[1.0, 2.0]] gives the
    regret sequence [[nan, nan]], and [nan < nan] is false. *)
Lemma monotonicity_fails_at_zero_delta :
  simulate_preference_regret (py 0) 0 (World [[np 1; np 2]] empty_figure)
    = Returns (0%nat, 1%nat)
        (World [[np 1; np 2]; [Value NpFloat64 NaN; Value NpFloat64 NaN]]
               empty_figure) /\
  f64_lt (num (np 1)) (num (np 2)) /\
  ~ f64_lt (num (Value NpFloat64 NaN)) (num (Value NpFloat64 NaN)).
Proof.
  repeat split.
  - apply (returns_of_sweep (py 0) 0 (World [[np 1; np 2]] empty_figure)
             [np 1; np 2]); [reflexivity|].
    cbn [sweep].
    rewrite (regret_of_zero_delta (py 0) (np 1) 1) by (simpl; auto; lra).
    rewrite (regret_of_zero_delta (py 0) (np 2) 2) by (simpl; auto; lra).
    reflexivity.
  - simpl. lra.
  - simpl. tauto.
Qed.

(** C3 fails as stated, also for a nonzero [delta]: with [delta = 1.0] the
    array [[4000.0, 6000.0]] gives the regrets [[0.0, 0.0]], both
    exponentials having underflowed, and [0.0 < 0.0] is false. *)
Lemma strict_monotonicity_fails :
  (simulate_preference_regret (py 0) 0 (World [[np 1; np 2]] empty_figure)
     = Returns (0%nat, 1%nat)
         (World [[np 1; np 2]; [Value NpFloat64 NaN; Value NpFloat64 NaN]]
                empty_figure) /\
   f64_lt (num (np 1)) (num (np 2)) /\
   ~ f64_lt (num (Value NpFloat64 NaN)) (num (Value NpFloat64 NaN))) /\
  (simulate_preference_regret (py 1) 0
     (World [[np 4000; np 6000]] empty_figure)
     = Returns (0%nat, 1%nat)
         (World [[np 4000; np 6000]; [np 0; np 0]] empty_figure) /\
   f64_lt (num (np 4000)) (num (np 6000)) /\
   ~ f64_lt (num (np 0)) (num (np 0))).
Proof.
  split; [exact monotonicity_fails_at_zero_delta|]. split; [|split].
  - apply (returns_of_sweep _ 0 (World [[np 4000; np 6000]] empty_figure)
             [np 4000; np 6000]); [reflexivity|].
    cbn [sweep]. unfold np at 1 2.
    replace 4000 with (2 * IZR 2000) by lra.
    replace 6000 with (2 * IZR 3000) by lra.
    now rewrite !regret_of_underflow by lia.
  - simpl. lra.
  - simpl. lra.
Qed.

Lemma regret_agrees_with_unit_delta_witness :
  exists ps qs,
    returns_regret (np (-5)) 0 (World [[np 1; np 2]] empty_figure) ps /\
    returns_regret (py 1) 0 (World [[np 1; np 2]] empty_figure) qs /\
    length ps = 2%nat /\ length qs = 2%nat /\
    forall i, (i < 2)%nat ->
      exists r s,
        nth_error ps i = Some (np r) /\ nth_error qs i = Some (np s) /\
        Rabs (r - s) <= / 1000000000.
Proof.
  apply (regret_agrees_with_unit_delta
           (World [[np 1; np 2]] empty_figure) 0 [np 1; np 2] (np (-5))).
  - reflexivity.
  - repeat constructor; [moderate (-5) 1|moderate (-5) 2].
  - repeat constructor; [moderate 1 1|moderate 1 2].
Defined.

(** C9 fails as stated: on [[0.5]], [delta = 2^1023] makes [b] overflow and
    gives the regret 1.0, while [delta = 1.0] gives [exp(-0.25)], which is
    below 0.8. *)
Lemma huge_delta_changes_the_regret :
  simulate_preference_regret (py (powerRZ 2 1023)) 0
    (World [[np (1 / 2)]] empty_figure)
    = Returns (0%nat, 1%nat)
        (World [[np (1 / 2)]; [np 1]] empty_figure) /\
  simulate_preference_regret (py 1) 0 (World [[np (1 / 2)]] empty_figure)
    = Returns (0%nat, 1%nat)
        (World [[np (1 / 2)]; [np (exp (- (1 / 2) / 2))]] empty_figure) /\
  exp (- (1 / 2) / 2) <= 8 / 10.
Proof.
  split; [|split].
  - apply (returns_of_sweep _ 0 (World [[np (1 / 2)]] empty_figure)
             [np (1 / 2)]); [reflexivity|].
    cbn [sweep]. unfold py, np at 1.
    now rewrite regret_of_overflow.
  - apply (returns_of_sweep _ 0 (World [[np (1 / 2)]] empty_figure)
             [np (1 / 2)]); [reflexivity|].
    cbn [sweep].
    assert (Hwc : well_conditioned (py 1) (np (1 / 2)))
      by moderate 1 (1 / 2).
    destruct (regret_of_well_conditioned _ _ Hwc) as (x & Hx & _ & ->).
    cbn [np num] in Hx. injection Hx as <-.
    pose proof underflow_threshold_small. pose proof overflow_threshold_big.
    assert (Hlo : 7 / 10 <= exp (- (1 / 2) / 2)).
    { pose proof (exp_ineq1_le (- (1 / 2) / 2)). lra. }
    assert (Hhi : exp (- (1 / 2) / 2) < 1).
    { replace (- (1 / 2) / 2) with (- (1 / 4)) by lra.
      apply exp_neg_lt_1. lra. }
    rewrite (to_range_in (- (1 / 2) / 2))
      by (unfold Rabs; destruct (Rcase_abs _); lra).
    cbn [f64_exp].
    rewrite (to_range_in (exp (- (1 / 2) / 2)))
      by (rewrite Rabs_pos_eq; lra).
    reflexivity.
  - replace (- (1 / 2) / 2) with (- (1 / 4)) by lra.
    apply exp_neg_upper; lra.
Qed.

(** ** Zero divisors *)

(** C2 (as amended).  A zero among the samples raises [ZeroDivisionError]
    when it and [delta] are Python floats.  In a [float64] array it raises
    nothing: the call returns, and for a nonzero real [delta] the regret of
    the zero sample is [exp(-0) = 1.0]. *)
Theorem zero_sample_raises_or_yields_one
    (w : world) (epsilons : loc) (eps : list value) (delta : value) :
  nth_error (heap w) epsilons = Some eps ->
  (ty delta = PyFloat -> In (py 0) eps ->
   raises delta epsilons w ZeroDivisionError) /\
  (Forall (fun e => ty e = NpFloat64) eps ->
   forall d, num delta = Finite d -> d <> 0 ->
   exists ps,
     returns_regret delta epsilons w ps /\
     length ps = length eps /\
     forall i e,
       nth_error eps i = Some e -> num e = Finite 0 ->
       nth_error ps i = Some (np 1)).
Proof.
  intros Hs. split.
  - intros Ht Hin.
    destruct (sweep_some_err delta eps) with (acc := @nil value)
      as (ps & Hsw).
    { exists (py 0), ZeroDivisionError. split; [exact Hin|].
      now apply regret_of_zero_sample_py. }
    eexists. exact (raises_of_sweep _ _ _ _ _ _ Hs Hsw).
  - intros Hnp d Hd Hd0.
    rewrite Forall_forall in Hnp.
    destruct (call_returns_when_rounds_ok delta epsilons w eps Hs)
      as (ps & Hret & Hal).
    { intros e He. apply regret_of_np_sample. now apply Hnp. }
    exists ps. repeat split.
    + eexists _, _. split; [exact Hret|]. apply nth_error_fresh.
    + symmetry. exact (Forall2_length Hal).
    + intros i e Hi He.
      destruct (forall2_nth_error _ _ _ Hal i e Hi) as (p & Hp & Hpe).
      rewrite (regret_of_zero_sample_np delta e d) in Hpe; auto.
      * congruence.
      * rewrite (Hnp e (nth_error_In _ _ Hi)). now destruct (ty delta).
Qed.

Lemma zero_sample_raises_or_yields_one_witness :
  raises (py 1) 0 (World [[py 2; py 0]] empty_figure) ZeroDivisionError /\
  exists ps,
    returns_regret (py 1) 0 (World [[np 2; np 0]] empty_figure) ps /\
    nth_error ps 1 = Some (np 1).
Proof.
  split.
  - apply (zero_sample_raises_or_yields_one
             (World [[py 2; py 0]] empty_figure) 0 [py 2; py 0] (py 1)).
    + reflexivity.
    + reflexivity.
    + simpl; auto.
  - destruct (zero_sample_raises_or_yields_one
                (World [[np 2; np 0]] empty_figure) 0 [np 2; np 0] (py 1)
                eq_refl) as [_ H].
    destruct (H ltac:(repeat constructor) 1 eq_refl R1_neq_R0)
      as (ps & Hret & _ & Hone).
    exists ps. split; [exact Hret|].
    exact (Hone 1%nat (np 0) eq_refl eq_refl).
Defined.

(** C2 fails as stated: on the array [[0.0]] the default [delta = 1.0]
    raises nothing, and the call returns the regret [1.0] for the zero. *)
Lemma zero_in_array_returns_a_value :
  simulate_preference_regret (py 1) 0 (World [[np 0]] empty_figure)
    = Returns (0%nat, 1%nat) (World [[np 0]; [np 1]] empty_figure) /\
  forall e, ~ raises (py 1) 0 (World [[np 0]] empty_figure) e.
Proof.
  assert (H : simulate_preference_regret (py 1) 0
                (World [[np 0]] empty_figure)
              = Returns (0%nat, 1%nat)
                  (World [[np 0]; [np 1]] empty_figure)).
  { apply (returns_of_sweep (py 1) 0 (World [[np 0]] empty_figure) [np 0]);
      [reflexivity|].
    cbn [sweep].
    rewrite (regret_of_zero_sample_np (py 1) (np 0) 1)
      by (simpl; auto; lra).
    reflexivity. }
  split; [exact H|].
  intros e (w' & Hr). rewrite H in Hr. discriminate.
Qed.

(** ** Shape of the result *)

(** C4 (as amended).  Whenever no division of the call can have a zero
    divisor between Python floats, because a [float64] takes part in each
    round or because [delta] and the samples are reals whose quotients do
    not round to zero, the call returns two sequences: the sample sequence
    it was given, unchanged, and a regret sequence of the same length whose
    element [i] is what the round computes from [eps[i]]. *)
Theorem outputs_aligned_with_input
    (w : world) (epsilons : loc) (eps : list value) (delta : value) :
  nth_error (heap w) epsilons = Some eps ->
  Forall (no_zero_division delta) eps ->
  exists regret w' ps,
    simulate_preference_regret delta epsilons w
      = Returns (epsilons, regret) w' /\
    nth_error (heap w') epsilons = Some eps /\
    nth_error (heap w') regret = Some ps /\
    length ps = length eps /\
    forall i e,
      nth_error eps i = Some e ->
      exists p, regret_of delta e = Ok p /\ nth_error ps i = Some p.
Proof.
  intros Hs Hsafe. rewrite Forall_forall in Hsafe.
  destruct (call_returns_when_rounds_ok delta epsilons w eps Hs)
    as (ps & Hret & Hal).
  { intros e He. eexists.
    exact (regret_of_no_zero_division delta e (Hsafe e He)). }
  assert (Hlt : (epsilons < length (heap w))%nat)
    by (apply nth_error_Some; congruence).
  eexists _, _, ps. split; [exact Hret|]. repeat split.
  - simpl. now rewrite nth_error_old.
  - apply nth_error_fresh.
  - symmetry. exact (Forall2_length Hal).
  - intros i e Hi.
    destruct (forall2_nth_error _ _ _ Hal i e Hi) as (p & Hp & Hpe).
    now exists p.
Qed.

Lemma nonzero_quotient_moderate (d x : R) :
  / 1073741824 <= Rabs (d / x) -> nonzero_quotient d x.
Proof.
  intros H. unfold nonzero_quotient.
  pose proof (pow2_le (-1074) (-30) ltac:(lia)) as H1.
  rewrite pow2_m30 in H1. lra.
Qed.

Lemma outputs_aligned_with_input_witness :
  exists regret w' ps,
    simulate_preference_regret (py 1) 0 (World [[py 1; np 0]] empty_figure)
      = Returns (0%nat, regret) w' /\
    nth_error (heap w') 0 = Some [py 1; np 0] /\
    nth_error (heap w') regret = Some ps /\
    length ps = 2%nat /\
    forall i e,
      nth_error [py 1; np 0] i = Some e ->
      exists p, regret_of (py 1) e = Ok p /\ nth_error ps i = Some p.
Proof.
  apply (outputs_aligned_with_input
           (World [[py 1; np 0]] empty_figure) 0 [py 1; np 0] (py 1)).
  - reflexivity.
  - apply Forall_cons; [|apply Forall_cons; [|apply Forall_nil]].
    + right. exists 1, 1.
      split; [reflexivity|]. split; [reflexivity|].
      apply nonzero_quotient_moderate.
      unfold Rabs; destruct (Rcase_abs _); lra.
    + left. reflexivity.
Defined.

(** C4 fails as stated: on the list [[1.0]] of one positive Python float,
    [delta = 0.0] raises [ZeroDivisionError] and nothing is returned. *)
Lemma positive_samples_may_raise :
  positive (py 1) /\
  simulate_preference_regret (py 0) 0 (World [[py 1]] empty_figure)
    = Raises ZeroDivisionError (World [[py 1]; []] empty_figure).
Proof.
  split.
  - exists 1. split; [reflexivity|lra].
  - apply (raises_of_sweep (py 0) 0 (World [[py 1]] empty_figure) [py 1]);
      [reflexivity|].
    cbn [sweep].
    rewrite (regret_of_zero_delta (py 0) (py 1) 1) by (simpl; auto; lra).
    reflexivity.
Qed.

(** C10.  With [delta = 0] and a nonzero real sample at index [i], the first
    step gives [b = 0] and the second divides by [2 * b = 0]; the call then
    either raises [ZeroDivisionError] or returns NaN, not a probability, at
    index [i]. *)
Theorem zero_delta_yields_no_probability
    (w : world) (epsilons : loc) (eps : list value) (delta : value)
    (i : nat) (e : value) (x : R) :
  nth_error (heap w) epsilons = Some eps ->
  num delta = Finite 0 ->
  nth_error eps i = Some e -> num e = Finite x -> x <> 0 ->
  (exists b,
     truediv delta e = Ok b /\ num b = Finite 0 /\
     is_zero (num (int_mul 2 b)) = true) /\
  (raises delta epsilons w ZeroDivisionError \/
   exists ps,
     returns_regret delta epsilons w ps /\
     nth_error ps i = Some (Value NpFloat64 NaN)).
Proof.
  intros Hs Hd Hi Hx Hx0. split.
  - destruct (first_step_zero_delta delta e x Hd Hx Hx0)
      as (b & Hb & Hnb & _ & Hz).
    exists b. repeat split; auto.
  - destruct (sweep_cases delta eps []) as [(ps & Hsw)|(ps & Hsw)].
    + right. exists ps. split.
      * exact (returns_regret_of_sweep _ _ _ _ _ Hs Hsw).
      * destruct (sweep_aligned _ _ _ _ Hsw) as (qs & -> & Hqs).
        destruct (forall2_nth_error _ _ _ Hqs i e Hi) as (p & Hp & Hpe).
        simpl. rewrite Hp. f_equal.
        rewrite (regret_of_zero_delta delta e x Hd Hx Hx0) in Hpe.
        destruct (join (ty delta) (ty e)); congruence.
    + left. eexists. exact (raises_of_sweep _ _ _ _ _ _ Hs Hsw).
Qed.

Lemma zero_delta_yields_no_probability_witness :
  (exists b,
     truediv (py 0) (np 2) = Ok b /\ num b = Finite 0 /\
     is_zero (num (int_mul 2 b)) = true) /\
  (raises (py 0) 0 (World [[np 2]] empty_figure) ZeroDivisionError \/
   exists ps,
     returns_regret (py 0) 0 (World [[np 2]] empty_figure) ps /\
     nth_error ps 0 = Some (Value NpFloat64 NaN)).
Proof.
  apply (zero_delta_yields_no_probability
           (World [[np 2]] empty_figure) 0 [np 2] (py 0) 0 (np 2) 2).
  - reflexivity.
  - reflexivity.
  - reflexivity.
  - reflexivity.
  - lra.
Defined.

(** ** Range of the regret *)

(** C6 (as amended).  For a positive real [delta] and strictly positive
    samples, whenever no division can raise, the call returns and every
    element of the regret sequence is a real in the closed interval
    [0, 1]. *)
Theorem regret_in_unit_interval
    (w : world) (epsilons : loc) (eps : list value) (delta : value) (d : R) :
  nth_error (heap w) epsilons = Some eps ->
  num delta = Finite d -> 0 < d ->
  Forall positive eps ->
  Forall (no_zero_division delta) eps ->
  exists ps,
    returns_regret delta epsilons w ps /\
    length ps = length eps /\
    forall p, In p ps -> exists r, p = np r /\ 0 <= r <= 1.
Proof.
  intros Hs Hd Hd0 Hpos Hsafe.
  rewrite Forall_forall in Hpos, Hsafe.
  set (f := fun e : value =>
              Value NpFloat64 (round_value (num delta) (num e))).
  exists (map f eps). split; [|split].
  - apply (returns_regret_of_sweep _ _ _ eps _ Hs).
    apply (sweep_all_ok delta f eps).
    intros e He. exact (regret_of_no_zero_division delta e (Hsafe e He)).
  - apply length_map.
  - intros p Hp. apply in_map_iff in Hp. destruct Hp as (e & <- & He).
    destruct (Hpos e He) as (x & Hx & Hx0).
    destruct (round_value_positive d x Hd0 Hx0) as (r & Hr & Hunit).
    exists r. split; [|exact Hunit].
    unfold f, np. now rewrite Hd, Hx, Hr.
Qed.

Lemma regret_in_unit_interval_witness :
  exists ps,
    returns_regret (py 1) 0 (World [[np 1; np 2]] empty_figure) ps /\
    length ps = 2%nat /\
    forall p, In p ps -> exists r, p = np r /\ 0 <= r <= 1.
Proof.
  apply (regret_in_unit_interval
           (World [[np 1; np 2]] empty_figure) 0 [np 1; np 2] (py 1) 1).
  - reflexivity.
  - reflexivity.
  - lra.
  - positive_samples.
  - apply Forall_cons; [|apply Forall_cons; [|apply Forall_nil]];
      left; reflexivity.
Defined.

(** C6 fails as stated: with [delta = 1.0] the array [[4000.0]] gives the
    regret 0.0, the exponential having underflowed, and 0.0 is not above
    zero. *)
Lemma regret_reaches_zero :
  positive (py 1) /\ positive (np 4000) /\
  simulate_preference_regret (py 1) 0 (World [[np 4000]] empty_figure)
    = Returns (0%nat, 1%nat) (World [[np 4000]; [np 0]] empty_figure) /\
  ~ 0 < 0.
Proof.
  split; [exists 1; split; [reflexivity|lra]|].
  split; [exists 4000; split; [reflexivity|lra]|].
  split; [|lra].
  apply (returns_of_sweep _ 0 (World [[np 4000]] empty_figure)
           [np 4000]); [reflexivity|].
  cbn [sweep]. unfold np at 1.
  replace 4000 with (2 * IZR 2000) by lra.
  now rewrite regret_of_underflow by lia.
Qed.

(** ** Purity *)

(** C8.  The call is a function of [delta] and of the samples alone.  It
    adds the regret list to the store and changes no object that was there,
    the sample sequence included, nor the figure; in any other world that
    holds the same samples, and so in the world a first call leaves behind,
    it ends the same way with an equal list. *)
Theorem call_is_pure_and_repeatable
    (w : world) (epsilons : loc) (eps : list value) (delta : value) :
  nth_error (heap w) epsilons = Some eps ->
  exists ps e,
    after_call delta epsilons w ps e /\
    (let w1 := set_heap (heap w ++ [ps]) w in
     fig w1 = fig w /\
     (forall l xs, nth_error (heap w) l = Some xs ->
                   nth_error (heap w1) l = Some xs) /\
     after_call delta epsilons w1 ps e) /\
    (forall w' epsilons',
       nth_error (heap w') epsilons' = Some eps ->
       after_call delta epsilons' w' ps e).
Proof.
  intros Hs.
  exists (fst (sweep delta eps [])), (snd (sweep delta eps [])).
  assert (Hany : forall w' epsilons',
             nth_error (heap w') epsilons' = Some eps ->
             after_call delta epsilons' w'
               (fst (sweep delta eps [])) (snd (sweep delta eps []))).
  { intros w' l Hl. unfold after_call.
    rewrite (simulate_spec _ _ _ _ Hl).
    now destruct (sweep delta eps []) as [ps [x|]]. }
  assert (Hframe : forall ps l xs,
             nth_error (heap w) l = Some xs ->
             nth_error (heap w ++ [ps]) l = Some xs).
  { intros ps l xs Hl. rewrite nth_error_old; auto.
    apply nth_error_Some. congruence. }
  split; [now apply Hany|]. split; [|exact Hany].
  cbv zeta. split; [reflexivity|]. split.
  - intros l xs. apply Hframe.
  - apply Hany. simpl. now apply Hframe.
Qed.

Lemma call_is_pure_and_repeatable_witness :
  exists ps e,
    after_call (py 1) 0 (World [[np 2]] empty_figure) ps e /\
    (let w1 := set_heap (heap (World [[np 2]] empty_figure) ++ [ps])
                 (World [[np 2]] empty_figure) in
     fig w1 = fig (World [[np 2]] empty_figure) /\
     (forall l xs,
        nth_error (heap (World [[np 2]] empty_figure)) l = Some xs ->
        nth_error (heap w1) l = Some xs) /\
     after_call (py 1) 0 w1 ps e) /\
    (forall w' epsilons',
       nth_error (heap w') epsilons' = Some [np 2] ->
       after_call (py 1) epsilons' w' ps e).
Proof.
  apply (call_is_pure_and_repeatable
           (World [[np 2]] empty_figure) 0 [np 2] (py 1)).
  reflexivity.
Defined.


(** ** The default sweep *)

Lemma forall_removelast {A} (P : A -> Prop) (l : list A) :
  Forall P l -> Forall P (removelast l).
Proof.
  induction 1 as [|x l Hx Hl IH]; simpl; [constructor|].
  destruct l; [constructor|]. now constructor.
Qed.

Lemma linspace_positive (start stop : R) (num : nat) :
  0 < start -> start <= stop -> Forall positive (linspace start stop num).
Proof.
  intros Hstart Hstop. unfold linspace.
  set (y := map _ (seq 0 num)).
  assert (Hy : Forall (fun x => 0 < x) y).
  { subst y. apply Forall_forall. intros x Hx.
    apply in_map_iff in Hx. destruct Hx as (i & <- & _).
    pose proof (pos_INR i) as Hi.
    destruct (0 <? num - 1)%nat eqn:Hdiv.
    - apply Nat.ltb_lt, lt_0_INR in Hdiv.
      assert (0 <= (stop - start) / INR (num - 1)).
      { unfold Rdiv. apply Rmult_le_pos; [lra|].
        left. now apply Rinv_0_lt_compat. }
      nra.
    - nra. }
  assert (Hall : Forall (fun x => 0 < x)
                   (if (1 <? num)%nat then removelast y ++ [stop] else y)).
  { destruct (1 <? num)%nat; [|exact Hy].
    apply Forall_app. split.
    - now apply forall_removelast.
    - repeat constructor. lra. }
  apply Forall_forall. intros e He.
  apply in_map_iff in He. destruct He as (x & <- & Hx).
  rewrite Forall_forall in Hall.
  exists x. split; [reflexivity|]. now apply Hall.
Qed.

Lemma default_epsilons_length : length default_epsilons = 20%nat.
Proof. reflexivity. Qed.

Lemma default_epsilons_first :
  nth_error default_epsilons 0 = Some (np (1 / 10)).
Proof.
  unfold default_epsilons, linspace. cbn [seq map Nat.sub Nat.ltb Nat.leb
    removelast app nth_error].
  do 2 f_equal. simpl. lra.
Qed.

Lemma default_epsilons_last :
  nth_error default_epsilons 19 = Some (np 3).
Proof. reflexivity. Qed.

Lemma default_epsilons_positive : Forall positive default_epsilons.
Proof. apply linspace_positive; lra. Qed.

(** Bounds on [exp] by repeated squaring from [1 + x <= exp x]. *)
Lemma exp_double (x : R) : exp (2 * x) = exp x * exp x.
Proof. replace (2 * x) with (x + x) by lra. apply exp_plus. Qed.

Lemma exp_sq_lower (x l l' : R) :
  0 <= l -> l <= exp x -> l' <= l * l -> l' <= exp (2 * x).
Proof. intros Hl Hx Hl'. rewrite exp_double. nra. Qed.

Lemma exp_sq_upper (x u u' : R) :
  exp x <= u -> u * u <= u' -> exp (2 * x) <= u'.
Proof.
  intros Hx Hu. rewrite exp_double. pose proof (exp_pos x). nra.
Qed.

Lemma exp_first_sample_bounds :
  95108 / 100000 <= exp (- (1 / 10) / 2) <= 95138 / 100000.
Proof.
  replace (- (1 / 10) / 2) with (2 * (2 * (2 * (- (1 / 160))))) by lra.
  split.
  - apply (exp_sq_lower _ (487616699 / 500000000)); [lra| |lra].
    apply (exp_sq_lower _ (493769531 / 500000000)); [lra| |lra].
    apply (exp_sq_lower _ (159 / 160)); [lra| |lra].
    pose proof (exp_ineq1_le (- (1 / 160))). lra.
  - apply (exp_sq_upper _ (975385797 / 1000000000)); [|lra].
    apply (exp_sq_upper _ (987616219 / 1000000000)); [|lra].
    apply (exp_sq_upper _ (49689441 / 50000000)); [|lra].
    apply exp_neg_upper; lra.
Qed.

Lemma exp_last_sample_bounds :
  22263 / 100000 <= exp (- 3 / 2) <= 22363 / 100000.
Proof.
  replace (- 3 / 2)
    with (2 * (2 * (2 * (2 * (2 * (2 * (2 * (2 * (2 * (- (3 / 1024)))))))))))
    by lra.
  split.
  - apply (exp_sq_lower _ (471846833 / 1000000000)); [lra| |lra].
    apply (exp_sq_lower _ (686911081 / 1000000000)); [lra| |lra].
    apply (exp_sq_lower _ (82880099 / 100000000)); [lra| |lra].
    apply (exp_sq_lower _ (455192539 / 500000000)); [lra| |lra].
    apply (exp_sq_lower _ (119267627 / 125000000)); [lra| |lra].
    apply (exp_sq_lower _ (976801421 / 1000000000)); [lra| |lra].
    apply (exp_sq_lower _ (988332647 / 1000000000)); [lra| |lra].
    apply (exp_sq_lower _ (124268651 / 125000000)); [lra| |lra].
    apply (exp_sq_lower _ (1021 / 1024)); [lra| |lra].
    pose proof (exp_ineq1_le (- (3 / 1024))). lra.
  - apply (exp_sq_upper _ (236442443 / 500000000)); [|lra].
    apply (exp_sq_upper _ (34383313 / 50000000)); [|lra].
    apply (exp_sq_upper _ (16585129 / 20000000)); [|lra].
    apply (exp_sq_upper _ (91063519 / 100000000)); [|lra].
    apply (exp_sq_upper _ (954272073 / 1000000000)); [|lra].
    apply (exp_sq_upper _ (976868503 / 1000000000)); [|lra].
    apply (exp_sq_upper _ (988366583 / 1000000000)); [|lra].
    apply (exp_sq_upper _ (39766651 / 40000000)); [|lra].
    apply (exp_sq_upper _ (997078871 / 1000000000)); [|lra].
    apply exp_neg_upper; lra.
Qed.


Lemma linspace_bounds (start stop : R) (num : nat) :
  start <= stop ->
  Forall (fun e => exists x, e = np x /\ start <= x <= stop)
         (linspace start stop num).
Proof.
  intros Hle. unfold linspace.
  set (y := map _ (seq 0 num)).
  assert (Hy : Forall (fun x => start <= x <= stop) y).
  { subst y. apply Forall_forall. intros x Hx.
    apply in_map_iff in Hx. destruct Hx as (i & <- & Hi).
    apply in_seq in Hi. pose proof (pos_INR i) as Hi0.
    destruct (0 <? num - 1)%nat eqn:Hdiv.
    - apply Nat.ltb_lt in Hdiv.
      assert (Hi1 : INR i <= INR (num - 1)) by (apply le_INR; lia).
      assert (Hn : 0 < INR (num - 1)) by now apply lt_0_INR.
      assert (Hstep : 0 <= (stop - start) / INR (num - 1)).
      { unfold Rdiv. apply Rmult_le_pos; [lra|].
        left. now apply Rinv_0_lt_compat. }
      assert (Hfull : INR (num - 1) * ((stop - start) / INR (num - 1))
                      = stop - start) by (field; lra).
      nra.
    - apply Nat.ltb_ge in Hdiv.
      assert (i = 0%nat) by lia. subst i. simpl. lra. }
  assert (Hall : Forall (fun x => start <= x <= stop)
                   (if (1 <? num)%nat then removelast y ++ [stop] else y)).
  { destruct (1 <? num)%nat; [|exact Hy].
    apply Forall_app. split.
    - now apply forall_removelast.
    - apply Forall_cons; [lra|apply Forall_nil]. }
  apply Forall_forall. intros e He.
  apply in_map_iff in He. destruct He as (x & <- & Hx).
  rewrite Forall_forall in Hall.
  exists x. split; [reflexivity|]. now apply Hall.
Qed.

(** On the samples of the default sweep nothing leaves the range: a round
    yields [exp(-x / 2)] itself. *)
Lemma regret_of_default_range (delta e : value) (x : R) :
  num delta = Finite 1 -> num e = Finite x -> 1 / 10 <= x <= 3 ->
  regret_of delta e = Ok (closed_form e).
Proof.
  intros Hd Hx Hb.
  assert (Hwc : well_conditioned delta e).
  { apply (well_conditioned_moderate _ _ 1 x Hd Hx); [lra|].
    assert (Hq : 0 < 1 / x) by (apply Rdiv_lt_0_compat; lra).
    rewrite Rabs_pos_eq by lra. unfold Rdiv. rewrite Rmult_1_l.
    assert (/ 3 <= / x) by (apply Rinv_le_contravar; lra).
    assert (/ x <= / (1 / 10)) by (apply Rinv_le_contravar; lra).
    replace (/ (1 / 10)) with 10 in * by lra. lra. }
  destruct (regret_of_well_conditioned delta e Hwc) as (x' & Hx' & _ & ->).
  assert (x' = x) by congruence. subst x'.
  pose proof underflow_threshold_small. pose proof overflow_threshold_big.
  pose proof exp_last_sample_bounds as [Hlast _].
  assert (Hlo : exp (- 3 / 2) <= exp (- x / 2)).
  { destruct (Req_dec_T x 3) as [Heq|Hne].
    - right. f_equal. lra.
    - left. apply exp_increasing. lra. }
  assert (Hhi : exp (- x / 2) < 1).
  { replace (- x / 2) with (- (x / 2)) by lra. apply exp_neg_lt_1. lra. }
  rewrite (to_range_in (- x / 2))
    by (unfold Rabs; destruct (Rcase_abs _); lra).
  cbn [f64_exp].
  rewrite (to_range_in (exp (- x / 2))) by (rewrite Rabs_pos_eq; lra).
  unfold closed_form, np. now rewrite Hx.
Qed.

Lemma default_sweep :
  sweep default_delta default_epsilons []
    = (map closed_form default_epsilons, None).
Proof.
  apply (sweep_all_ok default_delta closed_form default_epsilons).
  intros e He.
  pose proof (linspace_bounds (1 / 10) 3 20 ltac:(lra)) as Hb.
  rewrite Forall_forall in Hb.
  destruct (Hb e He) as (x & -> & Hx).
  now apply (regret_of_default_range default_delta (np x) x).
Qed.

Lemma default_call_step :
  simulate_preference_regret default_delta 0
    (World [default_epsilons] empty_figure)
  = Returns (0%nat, 1%nat)
      (World [default_epsilons; map closed_form default_epsilons]
             empty_figure).
Proof.
  apply (returns_of_sweep default_delta 0
           (World [default_epsilons] empty_figure) default_epsilons
           (map closed_form default_epsilons)).
  - reflexivity.
  - exact default_sweep.
Qed.

Lemma default_call_returns :
  default_call initial_world
    = Returns (0%nat, 1%nat)
        (World [default_epsilons; map closed_form default_epsilons]
               empty_figure).
Proof.
  unfold default_call.
  rewrite (bind_returns (alloc default_epsilons) _ initial_world
             0%nat (World [default_epsilons] empty_figure) eq_refl).
  exact default_call_step.
Qed.

(** C5.  The call with the defaults, [delta = 1.0] and
    [linspace(0.1, 3, 20)], returns two sequences of length 20; the first
    regret is [exp(-0.05)], within 0.001 of 0.9512, and the last is
    [exp(-1.5)], within 0.001 of 0.2231. *)
Theorem default_call_endpoints :
  exists ps r0 r19,
    default_call initial_world
      = Returns (0%nat, 1%nat) (World [default_epsilons; ps] empty_figure) /\
    length default_epsilons = 20%nat /\
    length ps = 20%nat /\
    nth_error ps 0 = Some (np r0) /\
    nth_error ps 19 = Some (np r19) /\
    r0 = exp (- (5 / 100)) /\
    Rabs (r0 - 9512 / 10000) < 1 / 1000 /\
    r19 = exp (- (15 / 10)) /\
    Rabs (r19 - 2231 / 10000) < 1 / 1000.
Proof.
  exists (map closed_form default_epsilons),
         (exp (- (1 / 10) / 2)), (exp (- 3 / 2)).
  pose proof exp_first_sample_bounds as H0.
  pose proof exp_last_sample_bounds as H19.
  split; [exact default_call_returns|].
  split; [exact default_epsilons_length|].
  split; [rewrite length_map; exact default_epsilons_length|].
  split; [exact (nth_closed_form _ 0 _ _ default_epsilons_first eq_refl)|].
  split; [exact (nth_closed_form _ 19 _ _ default_epsilons_last eq_refl)|].
  split; [f_equal; lra|].
  split; [apply Rabs_def1; lra|].
  split; [f_equal; lra|].
  apply Rabs_def1; lra.
Qed.


(** C7.  The script ends with a figure that has been shown and holds one
    line, the regret sequence against the sample sequence, with y-axis title
    "Preference Regret", a chart title and the grid switched on.  Its x-axis
    title is the string literal of source line 14, "Privacy budget (Îµ)":
    it holds the bytes C3 8E C2 B5 (the characters U+00CE and U+00B5) where
    the letter epsilon is CE B5, so it is not "Privacy budget (ε)". *)
Theorem plot_is_labelled :
  exists w,
    script initial_world = Returns tt w /\
    lines (fig w)
      = [(default_epsilons, map closed_form default_epsilons)] /\
    xlabel (fig w) = "Privacy budget (Îµ)" /\
    xlabel (fig w)
      = ("Privacy budget ("
         ++ String (Ascii.ascii_of_nat 195)
              (String (Ascii.ascii_of_nat 142)
                 (String (Ascii.ascii_of_nat 194)
                    (String (Ascii.ascii_of_nat 181) ")"))))%string /\
    xlabel (fig w) <> "Privacy budget (ε)" /\
    ylabel (fig w) = "Preference Regret" /\
    title (fig w) = "Tradeoff: Privacy vs Preference Accuracy" /\
    title (fig w) <> "" /\
    grid (fig w) = true /\
    shown (fig w) = true.
Proof.
  eexists. split.
  - unfold script.
    rewrite (bind_returns (alloc default_epsilons) _ initial_world
               0%nat (World [default_epsilons] empty_figure) eq_refl).
    rewrite (bind_returns _ _ _ _ _ default_call_step).
    reflexivity.
  - cbn [fig lines xlabel ylabel title grid shown set_fig].
    split; [reflexivity|]. split; [reflexivity|]. split; [reflexivity|].
    split; [discriminate|]. split; [reflexivity|]. split; [reflexivity|].
    split; [discriminate|]. split; reflexivity.
Qed.

(** ** Further behaviour of the call *)

(** X1.  On an empty sample sequence the loop body never runs: whatever
    [delta] is, the Python float [0.0] and NaN included, the call returns
    an empty regret list and raises nothing. *)
Theorem empty_sequence_returns_empty
    (w : world) (epsilons : loc) (delta : value) :
  nth_error (heap w) epsilons = Some [] ->
  simulate_preference_regret delta epsilons w
    = Returns (epsilons, length (heap w)) (set_heap (heap w ++ [[]]) w).
Proof.
  intros Hs. now apply (returns_of_sweep delta epsilons w []).
Qed.

Lemma empty_sequence_returns_empty_witness :
  simulate_preference_regret (py 0) 0 (World [[]] empty_figure)
    = Returns (0%nat, 1%nat) (World [[]; []] empty_figure).
Proof.
  apply (empty_sequence_returns_empty (World [[]] empty_figure) 0 (py 0)).
  reflexivity.
Defined.

(** X2.  A [float64] among the operands of every division rules the
    exception out: when [delta] is a [float64], or every sample is, the call
    returns for any values at all, zeros, infinities and NaN included, with
    a regret list as long as the samples and made of [float64] only. *)
Theorem float64_operands_never_raise
    (w : world) (epsilons : loc) (eps : list value) (delta : value) :
  nth_error (heap w) epsilons = Some eps ->
  ty delta = NpFloat64 \/ Forall (fun e => ty e = NpFloat64) eps ->
  exists ps,
    returns_regret delta epsilons w ps /\
    length ps = length eps /\
    Forall (fun p => ty p = NpFloat64) ps.
Proof.
  intros Hs Hnp.
  destruct (call_returns_when_rounds_ok delta epsilons w eps Hs)
    as (ps & Hret & Hal).
  { intros e He. destruct Hnp as [Hd|He'].
    - now apply regret_of_np_delta.
    - apply regret_of_np_sample. rewrite Forall_forall in He'. now apply He'. }
  exists ps. split; [|split].
  - eexists _, _. split; [exact Hret|]. apply nth_error_fresh.
  - symmetry. exact (Forall2_length Hal).
  - clear Hret Hs Hnp. induction Hal as [|e p l l' Hep _ IH].
    + constructor.
    + constructor; [exact (regret_of_type _ _ _ Hep)|exact IH].
Qed.

Lemma float64_operands_never_raise_witness :
  exists ps,
    returns_regret (Value NpFloat64 (Finite 0)) 0
      (World [[py 0; Value PyFloat NaN]] empty_figure) ps /\
    length ps = 2%nat /\
    Forall (fun p => ty p = NpFloat64) ps.
Proof.
  apply (float64_operands_never_raise
           (World [[py 0; Value PyFloat NaN]] empty_figure) 0
           [py 0; Value PyFloat NaN] (Value NpFloat64 (Finite 0))).
  - reflexivity.
  - left. reflexivity.
Defined.

(** X3.  An infinite sample is a zero divisor in disguise: between Python
    floats, a real [delta] over an infinite sample gives [b = 0.0], and the
    second division raises [ZeroDivisionError]. *)
Theorem infinite_sample_raises
    (w : world) (epsilons : loc) (eps : list value) (delta : value)
    (d : R) (s : bool) :
  nth_error (heap w) epsilons = Some eps ->
  ty delta = PyFloat -> num delta = Finite d ->
  In (Value PyFloat (Infinity s)) eps ->
  raises delta epsilons w ZeroDivisionError.
Proof.
  intros Hs Ht Hd Hin.
  destruct (sweep_some_err delta eps) with (acc := @nil value)
    as (ps & Hsw).
  { exists (Value PyFloat (Infinity s)), ZeroDivisionError.
    split; [exact Hin|].
    rewrite regret_of_unfold. cbn [ty num]. rewrite Ht, Hd.
    cbn [join is_zero f64_div]. rewrite f64_mul_two_zero.
    now rewrite is_zero_zero. }
  eexists. exact (raises_of_sweep _ _ _ _ _ _ Hs Hsw).
Qed.

Lemma infinite_sample_raises_witness :
  raises (py 1) 0
    (World [[py 2; Value PyFloat (Infinity false)]] empty_figure)
    ZeroDivisionError.
Proof.
  apply (infinite_sample_raises
           (World [[py 2; Value PyFloat (Infinity false)]] empty_figure) 0
           [py 2; Value PyFloat (Infinity false)] (py 1) 1 false).
  - reflexivity.
  - reflexivity.
  - reflexivity.
  - simpl; auto.
Defined.

(** X6.  With [delta = 0] a [float64] array is answered with NaN throughout:
    every real sample, zero or not, gets NaN, and nothing is raised. *)
Theorem zero_delta_on_array_is_all_nan
    (w : world) (epsilons : loc) (eps : list value) (delta : value) :
  nth_error (heap w) epsilons = Some eps ->
  num delta = Finite 0 ->
  Forall (fun e => ty e = NpFloat64 /\ exists x, num e = Finite x) eps ->
  returns_regret delta epsilons w
    (map (fun _ => Value NpFloat64 NaN) eps).
Proof.
  intros Hs Hd Hall.
  apply (returns_regret_of_sweep _ _ _ eps _ Hs).
  apply (sweep_all_ok delta (fun _ => Value NpFloat64 NaN) eps).
  intros e He. rewrite Forall_forall in Hall.
  destruct (Hall e He) as (Ht & x & Hx).
  destruct (Req_dec_T x 0) as [->|Hx0].
  - now apply regret_of_zero_over_zero_np.
  - rewrite (regret_of_zero_delta delta e x Hd Hx Hx0), Ht.
    now destruct (ty delta).
Qed.

Lemma zero_delta_on_array_is_all_nan_witness :
  returns_regret (py 0) 0 (World [[np 0; np 2]] empty_figure)
    (map (fun _ => Value NpFloat64 NaN) [np 0; np 2]).
Proof.
  apply (zero_delta_on_array_is_all_nan
           (World [[np 0; np 2]] empty_figure) 0 [np 0; np 2] (py 0)).
  - reflexivity.
  - reflexivity.
  - repeat constructor; eexists; reflexivity.
Defined.

(** X7.  The rounds share no state, so the call distributes over
    concatenation: on [xs ++ ys] it returns the regrets of [xs] followed by
    those of [ys], and it raises what the call on [xs] raises or, when that
    one returns, what the call on [ys] raises. *)
Theorem call_distributes_over_concatenation
    (delta : value) (w1 w2 w3 : world) (l1 l2 l3 : loc)
    (xs ys : list value) :
  nth_error (heap w1) l1 = Some xs ->
  nth_error (heap w2) l2 = Some ys ->
  nth_error (heap w3) l3 = Some (xs ++ ys) ->
  (forall ps qs,
     returns_regret delta l1 w1 ps -> returns_regret delta l2 w2 qs ->
     returns_regret delta l3 w3 (ps ++ qs)) /\
  (forall e, raises delta l1 w1 e -> raises delta l3 w3 e) /\
  (forall ps e,
     returns_regret delta l1 w1 ps -> raises delta l2 w2 e ->
     raises delta l3 w3 e).
Proof.
  intros H1 H2 H3. split; [|split].
  - intros ps qs Hp Hq.
    apply (sweep_of_returns_regret _ _ _ _ _ H1) in Hp.
    apply (sweep_of_returns_regret _ _ _ _ _ H2) in Hq.
    apply (returns_regret_of_sweep _ _ _ _ _ H3).
    rewrite sweep_app, Hp, sweep_acc, Hq. reflexivity.
  - intros e He.
    apply (sweep_of_raises _ _ _ _ _ H1) in He.
    apply (raises_of_sweep_snd _ _ _ _ _ H3).
    rewrite sweep_app.
    destruct (sweep delta xs []) as [a [x|]]; [exact He|discriminate].
  - intros ps e Hp He.
    apply (sweep_of_returns_regret _ _ _ _ _ H1) in Hp.
    apply (sweep_of_raises _ _ _ _ _ H2) in He.
    apply (raises_of_sweep_snd _ _ _ _ _ H3).
    rewrite sweep_app, Hp, sweep_acc. exact He.
Qed.

Lemma call_distributes_over_concatenation_witness :
  (forall ps qs,
     returns_regret (py 1) 0 (World [[np 1]; [py 2]; [np 1; py 2]]
                                    empty_figure) ps ->
     returns_regret (py 1) 1 (World [[np 1]; [py 2]; [np 1; py 2]]
                                    empty_figure) qs ->
     returns_regret (py 1) 2 (World [[np 1]; [py 2]; [np 1; py 2]]
                                    empty_figure) (ps ++ qs)) /\
  (forall e,
     raises (py 1) 0 (World [[np 1]; [py 2]; [np 1; py 2]] empty_figure) e ->
     raises (py 1) 2 (World [[np 1]; [py 2]; [np 1; py 2]] empty_figure) e) /\
  (forall ps e,
     returns_regret (py 1) 0 (World [[np 1]; [py 2]; [np 1; py 2]]
                                    empty_figure) ps ->
     raises (py 1) 1 (World [[np 1]; [py 2]; [np 1; py 2]] empty_figure) e ->
     raises (py 1) 2 (World [[np 1]; [py 2]; [np 1; py 2]] empty_figure) e).
Proof.
  apply (call_distributes_over_concatenation (py 1)
           (World [[np 1]; [py 2]; [np 1; py 2]] empty_figure)
           (World [[np 1]; [py 2]; [np 1; py 2]] empty_figure)
           (World [[np 1]; [py 2]; [np 1; py 2]] empty_figure)
           0 1 2 [np 1] [py 2]); reflexivity.
Defined.

(** X8.  The sample sequence the call returns is the object it was given,
    not a copy, while each call builds a regret list of its own.  When no
    division can raise, a sample appended through the returned reference is
    seen by the next call: its regret list is the first one followed by one
    more regret, and the first regret list stays as it was. *)
Theorem returned_samples_alias_the_argument
    (w : world) (epsilons : loc) (eps : list value) (delta : value)
    (v : value) :
  nth_error (heap w) epsilons = Some eps ->
  Forall (no_zero_division delta) (eps ++ [v]) ->
  let n := length (heap w) in
  exists w' ps p,
    call_append_call delta epsilons v w
      = Returns ((epsilons, n), (epsilons, S n)) w' /\
    nth_error (heap w') epsilons = Some (eps ++ [v]) /\
    nth_error (heap w') n = Some ps /\
    nth_error (heap w') (S n) = Some (ps ++ [p]) /\
    length ps = length eps /\
    regret_of delta v = Ok p.
Proof.
  intros Hs Hsafe n.
  assert (Hlt : (epsilons < length (heap w))%nat)
    by (apply nth_error_Some; congruence).
  set (f := fun e : value =>
              Value NpFloat64 (round_value (num delta) (num e))).
  assert (Hf : forall e, In e (eps ++ [v]) -> regret_of delta e = Ok (f e)).
  { intros e He. rewrite Forall_forall in Hsafe.
    exact (regret_of_no_zero_division delta e (Hsafe e He)). }
  assert (Hsw1 : sweep delta eps [] = (map f eps, None)).
  { apply (sweep_all_ok delta f eps). intros e He. apply Hf.
    apply in_or_app. now left. }
  assert (Hsw2 : sweep delta (eps ++ [v]) [] = (map f (eps ++ [v]), None)).
  { now apply (sweep_all_ok delta f (eps ++ [v])). }
  set (ps := map f eps).
  set (h1 := update epsilons (eps ++ [v]) (heap w ++ [ps])).
  assert (Hlen1 : length h1 = S n).
  { unfold h1. rewrite update_length, length_app. simpl. subst n. lia. }
  assert (Hs1 : nth_error h1 epsilons = Some (eps ++ [v])).
  { unfold h1. apply update_hit. rewrite length_app. simpl. lia. }
  assert (Hn1 : nth_error h1 n = Some ps).
  { unfold h1. rewrite update_miss by (subst n; lia). apply nth_error_fresh. }
  exists (set_heap (h1 ++ [map f (eps ++ [v])]) w), ps, (f v).
  split; [|split; [|split; [|split; [|split]]]].
  - unfold call_append_call.
    rewrite (bind_returns _ _ _ _ _
               (returns_of_sweep delta epsilons w eps ps Hs Hsw1)).
    assert (Happ : append epsilons v (set_heap (heap w ++ [ps]) w)
                   = Returns tt (set_heap h1 w)).
    { unfold append. cbn [heap set_heap].
      now rewrite nth_error_old, Hs by exact Hlt. }
    cbn [fst]. rewrite (bind_returns _ _ _ _ _ Happ).
    pose proof (returns_of_sweep delta epsilons (set_heap h1 w)
                  (eps ++ [v]) (map f (eps ++ [v])) Hs1 Hsw2) as Hcall2.
    rewrite (bind_returns _ _ _ _ _ Hcall2).
    cbn [heap set_heap]. rewrite Hlen1. reflexivity.
  - cbn [heap set_heap]. rewrite nth_error_old; [exact Hs1|].
    rewrite Hlen1. subst n. lia.
  - cbn [heap set_heap]. rewrite nth_error_old; [exact Hn1|].
    rewrite Hlen1. lia.
  - cbn [heap set_heap]. rewrite <- Hlen1, nth_error_fresh.
    now rewrite map_app.
  - apply length_map.
  - apply Hf. apply in_or_app. right. now left.
Qed.

Lemma returned_samples_alias_the_argument_witness :
  let n := length (heap (World [[np 1]] empty_figure)) in
  exists w' ps p,
    call_append_call (py 1) 0 (np 0) (World [[np 1]] empty_figure)
      = Returns ((0%nat, n), (0%nat, S n)) w' /\
    nth_error (heap w') 0 = Some ([np 1] ++ [np 0]) /\
    nth_error (heap w') n = Some ps /\
    nth_error (heap w') (S n) = Some (ps ++ [p]) /\
    length ps = length [np 1] /\
    regret_of (py 1) (np 0) = Ok p.
Proof.
  apply (returned_samples_alias_the_argument
           (World [[np 1]] empty_figure) 0 [np 1] (py 1) (np 0)).
  - reflexivity.
  - apply Forall_cons; [|apply Forall_cons; [|apply Forall_nil]];
      left; reflexivity.
Defined.

(** C4 fails as stated, also for a nonzero [delta]: between Python floats
    the least subnormal [delta = 2^-1074] over the sample 3.0 rounds to
    [b = 0.0], and the second division raises [ZeroDivisionError]. *)
Lemma positive_samples_raise :
  (positive (py 1) /\
   simulate_preference_regret (py 0) 0 (World [[py 1]] empty_figure)
     = Raises ZeroDivisionError (World [[py 1]; []] empty_figure)) /\
  (positive (py 3) /\
   simulate_preference_regret (py (powerRZ 2 (-1074))) 0
     (World [[py 3]] empty_figure)
     = Raises ZeroDivisionError (World [[py 3]; []] empty_figure)).
Proof.
  split; [exact positive_samples_may_raise|]. split.
  - exists 3. split; [reflexivity|lra].
  - apply (raises_of_sweep _ 0 (World [[py 3]] empty_figure) [py 3]);
      [reflexivity|].
    cbn [sweep]. rewrite regret_of_unfold. cbn [py ty num join].
    rewrite (is_zero_finite 3) by lra.
    rewrite (f64_div_finite _ 3) by lra.
    pose proof (pow2_pos (-1074)) as Hp.
    pose proof underflow_below_subnormal as Hut.
    rewrite to_range_tiny.
    + rewrite f64_mul_two_zero. now rewrite is_zero_zero.
    + assert (0 < powerRZ 2 (-1074) / 3) by lra.
      rewrite Rabs_pos_eq; lra.
Qed.
